(** * Badge-access analysis (analyze_badges.py)

    A shallow embedding of the three analyses of [analyze_badges.py]
    ([detect_impossible_travel], [detect_curious_users], [room_typing]) and
    of the preprocessing they share, with the properties of the
    specification proved about it.

    A pandas DataFrame is a list of rows in row order; a column assignment
    [d["c"] = ...] extends every row by one field.  Every record of the log
    has its identifiers and its timestamp, as strings; [success] is
    optional and may hold any JSON scalar.  The floating point
    seconds of [dt.timestamp()] are the doubles they are ([int_of_quotient]).
    Floating point minutes
    are exact rationals: every value the code compares is a quotient of an
    integer number of seconds by 60 (or the mean of two of them) and every
    threshold is an integer, so no comparison depends on rounding.  The
    library calls the code makes ([dateutil]'s [isoparse], [pd.to_datetime]
    and the sort behind a one-column [sort_values]) are the fields of the
    class [Library]. *)

From Stdlib Require Import ZArith QArith Qminmax String Ascii List Sorted Lia Lqa.
From stdpp Require Import base list strings gmap sorting pretty.

Local Open Scope string_scope.
Local Open Scope list_scope.
Local Open Scope Z_scope.

(** ** Outcomes of a run *)

Inductive error :=
| ParseError (ts : string)      (* isoparse raised on this timestamp *)
| DatetimeError.                (* pd.to_datetime / the .dt accessor raised *)

Inductive result (A : Type) :=
| Ok (a : A)
| Err (e : error).
Arguments Ok {A} a.
Arguments Err {A} e.

Global Instance result_ret : MRet result := λ A a, Ok a.
Global Instance result_bind : MBind result := λ A B k m,
  match m with
  | Ok a => k a
  | Err e => Err e
  end.

(** ** Data model *)

(** What a JSON document can put in the optional [success] field, as the
    Python objects a row of the frame holds. *)
Inductive pyval :=
| PyBool (b : bool)
| PyInt (n : Z)
| PyFloat (q : Q)
| PyNaN
| PyStr (s : string)
| PyNone.

Global Instance Q_eq_dec : EqDecision Q.
Proof. solve_decision. Defined.

Global Instance pyval_eq_dec : EqDecision pyval.
Proof. solve_decision. Defined.

(** [v is False]: identity with the singleton [False]. *)
Definition py_is_False (v : pyval) : bool :=
  match v with
  | PyBool false => true
  | _ => false
  end.

(** [bool(v)], Python's truth value. *)
Definition py_truthy (v : pyval) : bool :=
  match v with
  | PyBool b => b
  | PyInt n => negb (n =? 0)
  | PyFloat q => negb (Qeq_bool q 0)
  | PyNaN => true
  | PyStr s => negb (String.eqb s "")
  | PyNone => false
  end.

Record AccessEvent := {
  user_id : string;
  location_id : string;
  room_id : string;
  timestamp : string;
  success : option pyval          (* None: the record has no such key *)
}.

(** What [isoparse] returns: the wall-clock reading in microseconds since
    1970-01-01T00:00:00 and, when the string carries one, the UTC offset in
    microseconds. *)
Record datetime := {
  dt_wall : Z;
  dt_tzinfo : option Z
}.

(** A frame after [d["epoch"] = d["timestamp"].apply(iso_to_epoch)]. *)
Record Row := {
  ev : AccessEvent;
  epoch : Z
}.

Definition row_user (r : Row) : string := user_id (ev r).

(** ** Stable sorting

    [sort_values] on a list of columns goes through pandas'
    [lexsort_indexer], a stable lexicographic sort.  It is modelled by the
    insertion sort below, which puts a row in front of the first row it is
    not greater than, so rows with equal keys keep their order. *)

Section stable_sort.
Context {A : Type} (R : relation A) `{!RelDecision R}.

Fixpoint insert_sorted (x : A) (l : list A) : list A :=
  match l with
  | [] => [x]
  | y :: t => if decide (R x y) then x :: y :: t else y :: insert_sorted x t
  end.

Definition stable_sort (l : list A) : list A := foldr insert_sorted [] l.
End stable_sort.

(** ** The libraries the code calls *)

(** [argsort_desc vals] is the indexer a one-column
    [sort_values(col, ascending=False)] computes from the column's values.
    That sort is numpy's default one, which is not stable, so only what any
    sort gives is known of it: the indexer is a permutation of the row
    positions and the values read along it never increase. *)
Class Library := {
  (* dateutil.parser.isoparse; None when it raises ValueError *)
  isoparse : string → option datetime;
  (* pd.to_datetime(col, format='mixed', errors='coerce').dt.hour on a whole
     column; an inner None is NaT (the coerced parse failure), an outer None
     is an exception *)
  to_datetime_hour : list string → option (list (option nat));
  argsort_desc : list Z → list nat;
  argsort_desc_perm vals : argsort_desc vals ≡ₚ seq 0 (length vals);
  argsort_desc_sorted vals :
    StronglySorted (flip Z.le) (omap (λ i, vals !! i) (argsort_desc vals))
}.

(** [sort_values(col, ascending=False)]: the rows taken in indexer order. *)
Definition sort_values_desc `{Library} {A} (col : A → Z) (rows : list A) : list A :=
  omap (λ i, rows !! i) (argsort_desc (col <$> rows)).

(** ** Floating point seconds

    [dt.timestamp()] of an aware datetime is
    [(dt - epoch).total_seconds()], the true division of an integer number
    of microseconds by [10**6]: the double nearest to the quotient, ties to
    even.  [int] then drops the fraction of that double.  The quotients at
    hand lie far inside the range of the normal doubles. *)

(** The integer nearest to [p / q], ties to even, for [0 <= p], [0 < q]. *)
Definition round_half_even (p q : Z) : Z :=
  let fl := p / q in
  let r := p mod q in
  if 2 * r <? q then fl
  else if q <? 2 * r then fl + 1
  else if Z.even fl then fl else fl + 1.

(** The exponent [k] of the binade of [n / d]: [2^k <= n / d < 2^(k+1)],
    for [0 < n], [0 < d]. *)
Definition binade (n d : Z) : Z :=
  let k := Z.log2 n - Z.log2 d in
  if (if 0 <=? k then d * 2 ^ k <=? n else d <=? n * 2 ^ (- k))
  then k else k - 1.

(** [int(n / d)] for [0 < n], [0 < d]: the double is [m * 2^e] with a
    mantissa [m] of 53 bits. *)
Definition int_of_quotient_pos (n d : Z) : Z :=
  let e := binade n d - 52 in
  let m := if 0 <=? e then round_half_even n (d * 2 ^ e)
           else round_half_even (n * 2 ^ (- e)) d in
  if 0 <=? e then m * 2 ^ e else m / 2 ^ (- e).

(** [int(n / d)] for [0 < d], [/] the true division of two integers. *)
Definition int_of_quotient (n d : Z) : Z :=
  if n =? 0 then 0 else Z.sgn n * int_of_quotient_pos (Z.abs n) d.

(** ** EventNormalizer *)

Definition FOUR_HOURS_SECS : Z := 4 * 60 * 60.

Section analyses.
Context `{Library}.

Definition iso_to_epoch (ts : string) : result Z :=
  match isoparse ts with
  | None => Err (ParseError ts)
  | Some dt =>
      (* a naive value is read as UTC: dt.replace(tzinfo=timezone.utc) *)
      let offset := default 0 (dt_tzinfo dt) in
      (* int(dt.timestamp()): the instant in microseconds, divided into
         a double and cut to an integer *)
      Ok (int_of_quotient (dt_wall dt - offset) 1000000)
  end.

(** [d["epoch"] = d["timestamp"].apply(iso_to_epoch)]: the first timestamp
    that does not parse ends the run. *)
Definition with_epoch (df : list AccessEvent) : result (list Row) :=
  mapM (λ e, ep ← iso_to_epoch (timestamp e); mret {| ev := e; epoch := ep |}) df.

(** ** Per-user sequencing *)

(** The order of [sort_values(["user_id", "epoch"])]. *)
Definition row_le (a b : Row) : Prop :=
  (row_user a ≠ row_user b ∧ (row_user a ≤ row_user b)%string) ∨
  (row_user a = row_user b ∧ epoch a ≤ epoch b).

Global Instance row_le_dec : RelDecision row_le.
Proof. intros a b. unfold row_le. apply _. Defined.

Definition sort_values (d : list Row) : list Row := stable_sort row_le d.

Definition same_user (r r' : Row) : Prop := row_user r' = row_user r.

Global Instance same_user_dec r r' : Decision (same_user r r').
Proof. unfold same_user. apply _. Defined.

(** [d.groupby("user_id")[col].shift(1)]: for every row, the closest
    earlier row of the same user ([seen] holds the rows above, nearest
    first); the shifted column is [col] of that row, NaN when there is
    none. *)
Fixpoint shift_prev (seen d : list Row) : list (option Row) :=
  match d with
  | [] => []
  | r :: t => head (filter (same_user r) seen) :: shift_prev (r :: seen) t
  end.

(** [d.groupby("user_id")[col].shift(-1)]: the closest later row of the
    same user. *)
Fixpoint shift_next (d : list Row) : list (option Row) :=
  match d with
  | [] => []
  | r :: t => head (filter (same_user r) t) :: shift_next t
  end.

(** ** TravelDetector *)

Record TravelRow := {
  tr_row : Row;
  prev_loc : option string;
  prev_epoch : option Z
}.

Record TravelFinding := {
  tf_user_id : string;
  first_location : string;
  second_location : string;
  first_ts : Z;
  second_ts : Z;
  delta_secs : Z
}.

Definition add_prev (r : Row) (p : option Row) : TravelRow :=
  {| tr_row := r;
     prev_loc := (λ x, location_id (ev x)) <$> p;
     prev_epoch := epoch <$> p |}.

(** The boolean mask: a comparison with NaN is False. *)
Definition travel_mask (r : TravelRow) : bool :=
  bool_decide (is_Some (prev_loc r))
  && bool_decide (Some (location_id (ev (tr_row r))) ≠ prev_loc r)
  && match prev_epoch r with
     | Some pe => bool_decide (epoch (tr_row r) - pe < FOUR_HOURS_SECS)
     | None => false
     end.

(** A masked row, with [delta_secs] added and the columns renamed. *)
Definition finding_of (r : TravelRow) : option TravelFinding :=
  if travel_mask r then
    pl ← prev_loc r; pe ← prev_epoch r;
    Some {| tf_user_id := row_user (tr_row r);
            first_location := pl;
            second_location := location_id (ev (tr_row r));
            first_ts := pe;
            second_ts := epoch (tr_row r);
            delta_secs := epoch (tr_row r) - pe |}
  else None.

Definition travel_frame (seen d : list Row) : list TravelRow :=
  zip_with add_prev d (shift_prev seen d).

Definition detect_impossible_travel (df : list AccessEvent)
    : result (list TravelFinding) :=
  d ← with_epoch df;
  let d := sort_values d in
  mret (omap finding_of (travel_frame [] d)).

(** ** AccessAuditor *)

Record CuriousRow := {
  cr_event : AccessEvent;
  curious : bool
}.

Record CuriousUserRecord := {
  cu_user_id : string;
  attempts : Z
}.

(** The frame has a [success] column as soon as one record has the key;
    the records without it then hold NaN there. *)
Definition has_success_column (df : list AccessEvent) : bool :=
  bool_decide (Exists (λ e, is_Some (success e)) df).

(** [row.get("success", True)] *)
Definition row_get_success (has_column : bool) (row : AccessEvent) : pyval :=
  if has_column then default PyNaN (success row) else PyBool true.

Definition is_unauth (allowed_map : gmap string (gset string))
    (has_column : bool) (row : AccessEvent) : bool :=
  let rooms := default ∅ (allowed_map !! user_id row) in
  py_is_False (row_get_success has_column row)
  && bool_decide (room_id row ∉ rooms).

(** The keys of a [groupby]: the distinct values, ascending. *)
Definition group_keys (keys : list string) : list string :=
  stable_sort String.le (remove_dups keys).

(** [("curious", "sum")]: True counts for one. *)
Definition sum_curious (g : list CuriousRow) : Z :=
  foldr (λ r acc, Z.b2z (curious r) + acc) 0 g.

(** [d["curious"] = d.apply(is_unauth, axis=1)] *)
Definition curious_frame (df : list AccessEvent)
    (allowed_map : gmap string (gset string)) : list CuriousRow :=
  let has_column := has_success_column df in
  (λ e, {| cr_event := e; curious := is_unauth allowed_map has_column e |}) <$> df.

Definition detect_curious_users (df : list AccessEvent)
    (allowed_map : gmap string (gset string)) : list CuriousUserRecord :=
  let d := curious_frame df allowed_map in
  let flagged := filter (λ r, curious r = true) d in
  let cur :=
    (λ u, {| cu_user_id := u;
             attempts :=
               sum_curious (filter (λ r, user_id (cr_event r) = u) flagged) |})
    <$> group_keys ((λ r, user_id (cr_event r)) <$> flagged) in
  sort_values_desc attempts cur.

(** ** RoomProfiler *)

Record DwellRow := {
  dr_row : Row;
  next_epoch : Z;
  dwell_mins : Q
}.

Record HourRow := {
  hr_row : DwellRow;
  hour : option nat
}.

(** A row of [agg] after the merge with the pivoted hour counts. *)
Record AggRow := {
  ar_room_id : string;
  ar_visits : Z;
  ar_median_dwell_mins : Q;
  ar_hours : list Z                (* the columns 0 .. 23 *)
}.

Record RoomProfile := {
  rp_room_id : string;
  visits : Z;
  median_dwell_mins : Q;
  label : string
}.

(** [Series.clip(lower, upper)] *)
Definition clip (lower upper x : Q) : Q := Qmin (Qmax x lower) upper.

(** One row of the frame after the dwell steps: [next_epoch] by
    [shift(-1)], [dwell_mins = (next_epoch - epoch) / 60.0], the rows whose
    [next_epoch] is NaN dropped, and the dwell clipped to [0, 240]. *)
Definition dwell_of (r : Row) (next : option Row) : option DwellRow :=
  n ← next;
  Some {| dr_row := r;
          next_epoch := epoch n;
          dwell_mins := clip 0 240 (inject_Z (epoch n - epoch r) / 60) |}.

Definition dwell_frame (d : list Row) : list DwellRow :=
  let d := sort_values d in
  omap id (zip_with dwell_of d (shift_next d)).

Definition dr_room (r : DwellRow) : string := room_id (ev (dr_row r)).

Global Instance Qle_dec : RelDecision Qle.
Proof.
  intros x y. destruct (Qlt_le_dec y x) as [Hlt|Hle].
  - right. by apply Qlt_not_le.
  - by left.
Defined.

(** The median of a group: the middle value, or the mean of the two middle
    ones.  (A group is never empty; the 0 of the empty list is not used.) *)
Definition median (vals : list Q) : Q :=
  let s := stable_sort Qle vals in
  let n := length s in
  if Nat.even n
  then ((default 0 (s !! (n / 2 - 1)%nat) + default 0 (s !! (n / 2)%nat)) / 2)%Q
  else default 0%Q (s !! (n / 2)%nat).

(** The size of the [(room_id, hour)] group; rows whose hour is NaT belong
    to no group. *)
Definition hour_count (d : list HourRow) (room : string) (h : nat) : Z :=
  Z.of_nat (length (filter (λ r, dr_room (hr_row r) = room ∧ hour r = Some h) d)).

(** [r.get(h, 0)] *)
Definition row_get (r : AggRow) (h : nat) : Z := default 0 (ar_hours r !! h).

Definition sum_hours (r : AggRow) (hs : list nat) : Z :=
  foldr Z.add 0 (row_get r <$> hs).

Definition Qltb (x y : Q) : bool := negb (Qle_bool y x).

Definition label_row (r : AggRow) : string :=
  let med := ar_median_dwell_mins r in
  let morning := sum_hours r [7; 8; 9]%nat in
  let lunch := sum_hours r [11; 12; 13]%nat in
  let eve := sum_hours r [16; 17; 18; 19]%nat in
  let night := sum_hours r [0; 1; 2; 3; 4; 5; 21; 22; 23]%nat in
  let label := "Other/Office" in
  let label :=
    if (morning >? lunch) && Qltb med 15
    then "Lobby/Entry" else label in
  let label :=
    if Qle_bool 25 med && Qle_bool med 150 && (lunch >? morning) && (lunch >? eve)
    then "Conference/Meeting" else label in
  let label :=
    if Qltb med 10 && (morning + lunch + eve >? 50) && (night =? 0)
    then "Hallway/Break" else label in
  let label :=
    if Qle_bool 40 med && Qle_bool med 90 && (lunch >? morning + eve) && (lunch >? 20)
    then "Cafeteria" else label in
  let label :=
    if (night >? morning + lunch + eve) && Qle_bool 60 med
    then "Security/Overnight/Server" else label in
  label.

(** [agg]: one row per room of the dwell frame, in ascending room order,
    with the visit count, the median dwell and the 24 hour counts. *)
Definition room_agg (d : list HourRow) : list AggRow :=
  (λ room,
     let g := filter (λ r, dr_room (hr_row r) = room) d in
     {| ar_room_id := room;
        ar_visits := Z.of_nat (length g);
        ar_median_dwell_mins := median ((λ r, dwell_mins (hr_row r)) <$> g);
        ar_hours := hour_count d room <$> seq 0 24 |})
  <$> group_keys ((λ r, dr_room (hr_row r)) <$> d).

Definition room_typing (df : list AccessEvent) : result (list RoomProfile) :=
  d ← with_epoch df;
  let d := dwell_frame d in
  hours ← from_option Ok (Err DatetimeError)
            (to_datetime_hour ((λ r, timestamp (ev (dr_row r))) <$> d));
  let d := imap (λ i r, {| hr_row := r; hour := mjoin (hours !! i) |}) d in
  let agg := room_agg d in
  let labelled :=
    (λ r, {| rp_room_id := ar_room_id r;
             visits := ar_visits r;
             median_dwell_mins := ar_median_dwell_mins r;
             label := label_row r |}) <$> agg in
  mret (sort_values_desc visits labelled).

End analyses.

(** ** The run: frames as objects

    [main] hands one frame and one permission table to the three analyses
    in turn, and Python passes references.  A frame is an object of the
    heap: [df.copy()] makes a new object, a column assignment [d["c"] = ...]
    writes the object [d] refers to, and every call that returns a frame
    ([sort_values], a boolean index, [loc], [rename], [agg], [merge],
    a column selection) makes a new object.  An object is given by the
    rows of its frame, with the columns it has got so far.  The analyses
    draw on no source of chance: the sorts are functions of the keys they
    are given, and the sets of the permission table are asked for
    membership only, never iterated. *)

Inductive object :=
| Events (df : list AccessEvent)            (* the columns of the log *)
| Epochs (d : list Row)                     (* ... and [epoch] *)
| Prevs (d : list TravelRow)                (* ... [prev_loc], [prev_epoch] *)
| Findings (res : list TravelFinding)       (* the selected columns and
                                               [delta_secs] *)
| Flags (d : list CuriousRow)               (* the log and [curious] *)
| Attempts (cur : list CuriousUserRecord)   (* [user_id], [attempts] *)
| Nexts (d : list (Row * option Row))       (* ... [next_epoch] and the
                                               raw [dwell_mins] *)
| Dwells (d : list DwellRow)                (* ... [dwell_mins] clipped *)
| Hours (d : list HourRow)                  (* ... and [hour] *)
| Aggs (agg : list AggRow)                  (* [agg] after the merge *)
| Labels (agg : list (AggRow * string))     (* ... and [label] *)
| Profiles (out : list RoomProfile)         (* the four result columns *)
| Table (allowed : gmap string (gset string)).

(** A computation on the heap: it raises or returns, and leaves a heap;
    [None] when a reference does not hold an object of the kind read. *)
Definition Run (A : Type) : Type :=
  list object → option (result A * list object).

Global Instance run_ret : MRet Run := λ A a h, Some (Ok a, h).
Global Instance run_bind : MBind Run := λ A B k m h,
  match m h with
  | Some (Ok a, h') => k a h'
  | Some (Err e, h') => Some (Err e, h')
  | None => None
  end.

Definition raise {A} (e : error) : Run A := λ h, Some (Err e, h).

Definition lift_result {A} (r : result A) : Run A :=
  match r with
  | Ok a => mret a
  | Err e => raise e
  end.

Definition new_object (o : object) : Run nat := λ h,
  Some (Ok (length h), h ++ [o]).

Definition set_object (l : nat) (o : object) : Run () := λ h,
  if decide (l < length h)%nat then Some (Ok (), <[l := o]> h) else None.

Definition read (A : Type) (kind : object → option A) (l : nat) : Run A := λ h,
  match h !! l ≫= kind with
  | Some a => Some (Ok a, h)
  | None => None
  end.
Arguments read {A} kind l.

Definition events_of (o : object) : option (list AccessEvent) :=
  match o with Events df => Some df | _ => None end.
Definition epochs_of (o : object) : option (list Row) :=
  match o with Epochs d => Some d | _ => None end.
Definition prevs_of (o : object) : option (list TravelRow) :=
  match o with Prevs d => Some d | _ => None end.
Definition findings_of (o : object) : option (list TravelFinding) :=
  match o with Findings res => Some res | _ => None end.
Definition flags_of (o : object) : option (list CuriousRow) :=
  match o with Flags d => Some d | _ => None end.
Definition attempts_list_of (o : object) : option (list CuriousUserRecord) :=
  match o with Attempts cur => Some cur | _ => None end.
Definition nexts_of (o : object) : option (list (Row * option Row)) :=
  match o with Nexts d => Some d | _ => None end.
Definition dwells_of (o : object) : option (list DwellRow) :=
  match o with Dwells d => Some d | _ => None end.
Definition hours_of (o : object) : option (list HourRow) :=
  match o with Hours d => Some d | _ => None end.
Definition aggs_of (o : object) : option (list AggRow) :=
  match o with Aggs agg => Some agg | _ => None end.
Definition labels_of (o : object) : option (list (AggRow * string)) :=
  match o with Labels agg => Some agg | _ => None end.
Definition profiles_of (o : object) : option (list RoomProfile) :=
  match o with Profiles out => Some out | _ => None end.
Definition table_of (o : object) : option (gmap string (gset string)) :=
  match o with Table allowed => Some allowed | _ => None end.

Section run.
Context `{Library}.

(** [df.copy()] *)
Definition copy (df : nat) : Run nat :=
  events ← read events_of df;
  new_object (Events events).

(** [d["epoch"] = d["timestamp"].apply(iso_to_epoch)] *)
Definition set_epoch (d : nat) : Run () :=
  events ← read events_of d;
  rows ← lift_result (with_epoch events);
  set_object d (Epochs rows).

(** [d.sort_values(["user_id", "epoch"])] *)
Definition sorted (d : nat) : Run nat :=
  rows ← read epochs_of d;
  new_object (Epochs (sort_values rows)).

Definition run_travel (df : nat) : Run (list TravelFinding) :=
  d ← copy df;
  set_epoch d;;
  d ← sorted d;
  (* d["prev_loc"] = ...shift(1); d["prev_epoch"] = ...shift(1) *)
  rows ← read epochs_of d;
  set_object d (Prevs (travel_frame [] rows));;
  (* res = d.loc[mask, [...]].copy() *)
  rows ← read prevs_of d;
  res ← new_object (Prevs (filter (λ r, travel_mask r = true) rows));
  (* res["delta_secs"] = res["epoch"] - res["prev_epoch"] *)
  rows ← read prevs_of res;
  set_object res (Findings (omap finding_of rows));;
  (* res = res.rename(columns=...) *)
  found ← read findings_of res;
  res ← new_object (Findings found);
  read findings_of res.

(** The rows of [groupby("user_id").agg(attempts=("curious", "sum"))]. *)
Definition curious_groups (flagged : list CuriousRow) : list CuriousUserRecord :=
  (λ u, {| cu_user_id := u;
           attempts :=
             sum_curious (filter (λ r, user_id (cr_event r) = u) flagged) |})
  <$> group_keys ((λ r, user_id (cr_event r)) <$> flagged).

Definition run_curious (df allowed_map : nat) : Run (list CuriousUserRecord) :=
  d ← copy df;
  (* d["curious"] = d.apply(is_unauth, axis=1) *)
  events ← read events_of d;
  allowed ← read table_of allowed_map;
  set_object d (Flags (curious_frame events allowed));;
  (* d[d["curious"]] *)
  rows ← read flags_of d;
  flagged ← new_object (Flags (filter (λ r, curious r = true) rows));
  (* .groupby("user_id").agg(attempts=("curious", "sum")).reset_index() *)
  rows ← read flags_of flagged;
  cur ← new_object (Attempts (curious_groups rows));
  (* .sort_values("attempts", ascending=False) *)
  rows ← read attempts_list_of cur;
  cur ← new_object (Attempts (sort_values_desc attempts rows));
  read attempts_list_of cur.

Definition run_rooms (df : nat) : Run (list RoomProfile) :=
  d ← copy df;
  set_epoch d;;
  d ← sorted d;
  (* d["next_epoch"] = ...shift(-1); d["dwell_mins"] = ... / 60.0 *)
  rows ← read epochs_of d;
  set_object d (Nexts (zip rows (shift_next rows)));;
  (* d = d[d["next_epoch"].notna()] *)
  rows ← read nexts_of d;
  d ← new_object (Nexts (filter (λ r, is_Some r.2) rows));
  (* d["dwell_mins"] = d["dwell_mins"].clip(lower=0, upper=240) *)
  rows ← read nexts_of d;
  set_object d (Dwells (omap (λ r, dwell_of r.1 r.2) rows));;
  (* d["hour"] = pd.to_datetime(d["timestamp"], ...).dt.hour *)
  rows ← read dwells_of d;
  hours ← lift_result (from_option Ok (Err DatetimeError)
                  (to_datetime_hour ((λ r, timestamp (ev (dr_row r))) <$> rows)));
  set_object d
    (Hours (imap (λ i r, {| hr_row := r; hour := mjoin (hours !! i) |}) rows));;
  (* agg = d.groupby("room_id").agg(...).reset_index(), hour_counts, piv
     and agg.merge(piv, ...): frames made from [d] *)
  rows ← read hours_of d;
  agg ← new_object (Aggs (room_agg rows));
  (* every hour is a column of [agg] by now; agg["label"] = agg.apply(...) *)
  rows ← read aggs_of agg;
  set_object agg (Labels ((λ r, (r, label_row r)) <$> rows));;
  (* agg[["room_id", "visits", "median_dwell_mins", "label"]] *)
  rows ← read labels_of agg;
  out ← new_object
          (Profiles ((λ r, {| rp_room_id := ar_room_id r.1;
                              visits := ar_visits r.1;
                              median_dwell_mins := ar_median_dwell_mins r.1;
                              label := r.2 |}) <$> rows));
  (* .sort_values("visits", ascending=False) *)
  rows ← read profiles_of out;
  out ← new_object (Profiles (sort_values_desc visits rows));
  read profiles_of out.

(** What [main] gets from the three analyses, run on one frame and one
    table. *)
Record Outputs := {
  cloned_findings : list TravelFinding;
  curious_users : list CuriousUserRecord;
  room_types : list RoomProfile
}.

Definition run_all (df allowed_map : nat) : Run Outputs :=
  imp ← run_travel df;
  cur ← run_curious df allowed_map;
  rooms ← run_rooms df;
  mret {| cloned_findings := imp; curious_users := cur; room_types := rooms |}.

(** The outputs as the analyses give them on the rows of the frame. *)
Definition outputs_of (events : list AccessEvent)
    (allowed : gmap string (gset string)) : result Outputs :=
  imp ← detect_impossible_travel events;
  rooms ← room_typing events;
  mret {| cloned_findings := imp;
          curious_users := detect_curious_users events allowed;
          room_types := rooms |}.

End run.

(** A run gives [r] on the heap [h] and again on the heap it leaves, in
    which every object of [h] is as it was. *)
Definition rerun_identical {A} (run : Run A) (h : list object)
    (r : result A) : Prop :=
  ∃ k k', run h = Some (r, h ++ k) ∧ run (h ++ k) = Some (r, (h ++ k) ++ k').

(** ** Loading the inputs

    A parsed JSON document, the Python exceptions of the loading code and
    of [main], and the calls it makes outside the analyses.  A string is
    the UTF-8 encoding of a Python [str]; a dictionary is the list of its items in
    insertion order, its keys distinct. *)

Local Unset Elimination Schemes.
Inductive json :=
| JNull
| JBool (b : bool)
| JInt (n : Z)
| JFloat (q : Q)
| JStr (s : string)
| JList (items : list json)
| JObject (fields : list (string * json)).
Local Set Elimination Schemes.

Inductive py_error :=
| SystemExit (code : Z)
| OSError (path : string)           (* open() raised *)
| JSONDecodeError (text : string)   (* json.loads / json.load raised *)
| AttributeError                    (* .get of a value that is not a dict *)
| TypeError                         (* set() of a value that is not iterable
                                       or holds an unhashable item, or an
                                       unhashable dictionary key *)
| KeyError (column : string)        (* a column the frame does not have *)
| AnalysisError (e : error).

Inductive outcome (A : Type) :=
| Return (a : A)
| Raise (e : py_error).
Arguments Return {A} a.
Arguments Raise {A} e.

Global Instance outcome_ret : MRet outcome := λ A a, Return a.
Global Instance outcome_bind : MBind outcome := λ A B k m,
  match m with
  | Return a => k a
  | Raise e => Raise e
  end.

(** A frame as [pd.DataFrame(rows)] builds it: the labels of its columns,
    a key of some row each, and its rows in the data model of the analyses.
    A field of a row under a label the frame lacks stands for no cell. *)
Record Frame := {
  columns : list string;
  records : list AccessEvent
}.

Class Runtime := {
  (* str.strip *)
  py_strip : string → string;
  (* json.loads, and json.load on the text of a file; None when it raises *)
  json_loads : string → option json;
  (* pd.DataFrame(rows) *)
  DataFrame : list json → Frame;
  (* a frame of no row has no column *)
  DataFrame_nil : DataFrame [] = {| columns := []; records := [] |};
  (* the lines of a text file, each with its line end; None when open()
     raises *)
  open_lines : string → option (list string)
}.

Section loading.
Context `{Runtime}.

(** The loop of [read_jsonl]; [rows] is the list built so far. *)
Fixpoint read_jsonl_rows (rows : list json) (lines : list string)
    : outcome (list json) :=
  match lines with
  | [] => Return rows
  | line :: rest =>
      let line := py_strip line in
      if decide (line = "") then read_jsonl_rows rows rest
      else match json_loads line with
           | Some row => read_jsonl_rows (rows ++ [row]) rest
           | None => Raise (JSONDecodeError line)
           end
  end.

Definition read_jsonl (path : string) : outcome Frame :=
  match open_lines path with
  | None => Raise (OSError path)
  | Some lines => rows ← read_jsonl_rows [] lines; mret (DataFrame rows)
  end.

(** [d.get(k)] on the items of a dict. *)
Fixpoint dict_get (fields : list (string * json)) (k : string) : option json :=
  match fields with
  | [] => None
  | (k', v) :: rest => if decide (k' = k) then Some v else dict_get rest k
  end.

(** [rec.get(k)]: only a dict has [get]. *)
Definition rec_get (rec : json) (k : string) : outcome (option json) :=
  match rec with
  | JObject fields => Return (dict_get fields k)
  | _ => Raise AttributeError
  end.

Definition hashable (v : json) : bool :=
  match v with
  | JList _ | JObject _ => false
  | _ => true
  end.

Definition str_member (v : json) : option string :=
  match v with
  | JStr s => Some s
  | _ => None
  end.

(** A byte [10xxxxxx], which continues a character of the UTF-8 encoding. *)
Definition is_continuation (c : ascii) : bool :=
  let n := N_of_ascii c in
  bool_decide (128 ≤ n < 192)%N.

Definition continues (s : string) : bool :=
  match s with
  | String c _ => is_continuation c
  | EmptyString => false
  end.

(** The characters of a string, each as a string: a byte with the
    continuation bytes that follow it. *)
Fixpoint chars (s : string) : list string :=
  match s with
  | EmptyString => []
  | String c t =>
      match chars t with
      | next :: rest =>
          if continues t then String c next :: rest
          else String c EmptyString :: next :: rest
      | [] => [String c EmptyString]
      end
  end.

(** [len(s)], the number of characters. *)
Definition py_len (s : string) : nat := length (chars s).

(** [set(v)], as the set of its members that are strings (a room
    identifier is a string, so no other member can be found in it): the
    items of a list, the characters of a string, the keys of a dict. *)
Definition py_set (v : json) : outcome (gset string) :=
  match v with
  | JList items =>
      if forallb hashable items
      then Return (list_to_set (omap str_member items))
      else Raise TypeError
  | JStr s => Return (list_to_set (chars s))
  | JObject fields => Return (list_to_set fields.*1)
  | _ => Raise TypeError
  end.

(** [allowed[uid] = rooms], as the entries under string keys (a user
    identifier is a string, so no other entry can be looked up). *)
Definition store (allowed : gmap string (gset string)) (uid : option json)
    (rooms : gset string) : outcome (gmap string (gset string)) :=
  match uid with
  | Some (JStr u) => Return (<[u := rooms]> allowed)
  | Some (JList _) | Some (JObject _) => Raise TypeError
  | _ => Return allowed
  end.

(** [set(rec.get("allowed_rooms", []))] *)
Definition record_rooms (rec : json) : outcome (gset string) :=
  rooms ← rec_get rec "allowed_rooms";
  py_set (default (JList []) rooms).

(** The loop over a list of records. *)
Fixpoint load_list (allowed : gmap string (gset string)) (data : list json)
    : outcome (gmap string (gset string)) :=
  match data with
  | [] => Return allowed
  | rec :: rest =>
      uid ← rec_get rec "user_id";
      rooms ← record_rooms rec;
      allowed ← store allowed uid rooms;
      load_list allowed rest
  end.

(** The loop over the items of a dict. *)
Fixpoint load_dict (allowed : gmap string (gset string))
    (items : list (string * json)) : outcome (gmap string (gset string)) :=
  match items with
  | [] => Return allowed
  | (uid, rec) :: rest =>
      rooms ← record_rooms rec;
      load_dict (<[uid := rooms]> allowed) rest
  end.

(** [load_allowed_rooms] from the parsed document on. *)
Definition allowed_of_data (data : json) : outcome (gmap string (gset string)) :=
  match data with
  | JList recs => load_list ∅ recs
  | JObject items => load_dict ∅ items
  | _ => Return ∅
  end.

Definition load_allowed_rooms (profile_path : string)
    : outcome (gmap string (gset string)) :=
  match open_lines profile_path with
  | None => Raise (OSError profile_path)
  | Some lines =>
      let text := String.concat "" lines in
      match json_loads text with
      | None => Raise (JSONDecodeError text)
      | Some data => allowed_of_data data
      end
  end.

End loading.

(** ** The entry point

    What [main] does to the outside: the lines it prints and the files it
    writes with [to_json], in order, and how it ends.  Writing a file is
    taken to succeed.  The three analyses get the frame [read_jsonl]
    built; on a frame that lacks a column they read, they raise where they
    read it. *)

Inductive payload :=
| FindingsJson (rows : list TravelFinding)
| CuriousJson (rows : list CuriousUserRecord)
| RoomsJson (rows : list RoomProfile).

Inductive effect :=
| Print (text : string)
| ToJson (path : string) (content : payload).

Definition usage : string :=
  "Usage: python analyze_badges.py events.jsonl userprofile.json".

Section entry.
Context `{Library} `{Runtime}.

(** [df[c]], [sort_values], [groupby] and [row[c]] raise on a label the
    frame lacks. *)
Definition need (c : string) (df : Frame) : outcome () :=
  if decide (c ∈ columns df) then Return () else Raise (KeyError c).

(** [detect_impossible_travel(df)] on a frame: [d["timestamp"]] comes
    first, then the parsing of the timestamps, then the sort by [user_id]
    and the [location_id] of the groups. *)
Definition travel_of (df : Frame) : outcome (list TravelFinding) :=
  need "timestamp" df;;
  match detect_impossible_travel (records df) with
  | Err e => Raise (AnalysisError e)
  | Ok imp => need "user_id" df;; need "location_id" df;; Return imp
  end.

(** [row.get("success", True) is False] *)
Definition failed (df : list AccessEvent) (row : AccessEvent) : bool :=
  py_is_False (row_get_success (has_success_column df) row).

(** [detect_curious_users(df, allowed)] on a frame that went through
    [travel_of]: [is_unauth] reads [row["room_id"]] of the rows whose
    [success] is False, and of no other row. *)
Definition curious_of (df : Frame) (allowed : gmap string (gset string))
    : outcome (list CuriousUserRecord) :=
  (if existsb (failed (records df)) (records df)
   then need "room_id" df else Return ());;
  Return (detect_curious_users (records df) allowed).

(** [room_typing(df)] on a frame that went through [travel_of]:
    [groupby("room_id")] comes after the hours. *)
Definition rooms_of (df : Frame) : outcome (list RoomProfile) :=
  match room_typing (records df) with
  | Err e => Raise (AnalysisError e)
  | Ok rooms => need "room_id" df;; Return rooms
  end.

Definition main (argv : list string) : list effect * outcome () :=
  if decide (length argv < 3)%nat then ([Print usage], Raise (SystemExit 1))
  else
    let events_path := default "" (argv !! 1%nat) in
    let profile_path := default "" (argv !! 2%nat) in
    match read_jsonl events_path with
    | Raise e => ([], Raise e)
    | Return df =>
    match load_allowed_rooms profile_path with
    | Raise e => ([], Raise e)
    | Return allowed =>
    match travel_of df with
    | Raise e => ([], Raise e)
    | Return imp =>
      let out := [ToJson "cloned_findings.json" (FindingsJson imp)] in
      match curious_of df allowed with
      | Raise e => (out, Raise e)
      | Return curious =>
        let out := out ++ [ToJson "curious_users.json" (CuriousJson curious)] in
        match rooms_of df with
        | Raise e => (out, Raise e)
        | Return rooms =>
          (out ++ [ToJson "room_types.json" (RoomsJson rooms);
                   Print "== Done ==";
                   Print ("Impossible traveler flags: " +:+ pretty (length imp));
                   Print ("Curious users found: " +:+ pretty (length curious));
                   Print ("Labeled rooms: " +:+ pretty (length rooms))],
           Return ())
        end
      end
    end end end.

End entry.

(** The files a run wrote, in order. *)
Definition written (trace : list effect) : list string :=
  omap (λ e, match e with ToJson path _ => Some path | Print _ => None end) trace.

(** ** Notions of the specification *)

Definition epoch_le (a b : Row) : Prop := epoch a ≤ epoch b.

Global Instance epoch_le_dec : RelDecision epoch_le.
Proof. intros a b. unfold epoch_le. apply _. Defined.

(** The per-user time-sorted sequence of the specification: the rows of
    one user, in input order, sorted ascending by epoch by a stable sort. *)
Definition per_user_sequence (u : string) (d : list Row) : list Row :=
  stable_sort epoch_le (filter (λ r, row_user r = u) d).

(** The consecutive pairs of a sequence, first pair first. *)
Definition consecutive_pairs {A} (s : list A) : list (A * A) := zip s (tail s).

(** The finding of the specification for a pair of events [a], [b]. *)
Definition finding_for (a b : Row) : TravelFinding :=
  {| tf_user_id := row_user b;
     first_location := location_id (ev a);
     second_location := location_id (ev b);
     first_ts := epoch a;
     second_ts := epoch b;
     delta_secs := epoch b - epoch a |}.

(** Step 3 of the TravelDetector of the specification, for one consecutive
    pair: a finding when the location differs and less than 14400 seconds
    have elapsed, nothing otherwise. *)
Definition pair_finding (p : Row * Row) : option TravelFinding :=
  if decide (location_id (ev p.2) ≠ location_id (ev p.1)
             ∧ epoch p.2 - epoch p.1 < 14400)
  then Some (finding_for p.1 p.2) else None.

(** The allowed set the permission table gives a user: empty for a user
    the table does not know. *)
Definition allowed_rooms (allowed_map : gmap string (gset string))
    (u : string) : gset string :=
  default ∅ (allowed_map !! u).

(** An unauthorized attempt of the specification: [success] is the boolean
    false and the room is not in the user's allowed set. *)
Definition unauthorized (allowed_map : gmap string (gset string))
    (e : AccessEvent) : Prop :=
  success e = Some (PyBool false)
  ∧ room_id e ∉ allowed_rooms allowed_map (user_id e).

Global Instance unauthorized_dec allowed_map e :
  Decision (unauthorized allowed_map e).
Proof. unfold unauthorized. apply _. Defined.

(** The number of unauthorized attempts of user [u] in a log. *)
Definition unauthorized_count (allowed_map : gmap string (gset string))
    (df : list AccessEvent) (u : string) : Z :=
  Z.of_nat (length (filter (λ e, user_id e = u ∧ unauthorized allowed_map e) df)).

(** The attempt count a result holds for user [u]: that of the first row
    of [u], 0 when [u] has no row. *)
Definition attempts_of (out : list CuriousUserRecord) (u : string) : Z :=
  default 0 (attempts <$> head (filter (λ r, cu_user_id r = u) out)).

(** Step 3 of the RoomProfiler of the specification: a dwell below 0
    becomes 0, one above 240 becomes 240, any other is kept. *)
Definition clip_minutes (x : Q) : Q :=
  if Qlt_le_dec x 0 then 0%Q else if Qlt_le_dec 240 x then 240%Q else x.

(** The raw dwell of an event in minutes, from the seconds to the next
    event of the same user. *)
Definition dwell_minutes (a b : Row) : Q := inject_Z (epoch b - epoch a) / 60.

Global Instance Qlt_dec : RelDecision Qlt.
Proof.
  intros x y. destruct (Qlt_le_dec x y) as [Hlt|Hle].
  - by left.
  - right. by apply Qle_not_lt.
Defined.

(** The traffic of a room over a window of hours, and the four windows of
    the labeling rules. *)
Definition traffic (r : AggRow) (hs : list nat) : Z :=
  foldr Z.add 0 ((λ h, default 0 (ar_hours r !! h)) <$> hs).

Definition morning (r : AggRow) : Z := traffic r (seq 7 3).
Definition lunch (r : AggRow) : Z := traffic r (seq 11 3).
Definition evening (r : AggRow) : Z := traffic r (seq 16 4).
Definition night (r : AggRow) : Z := traffic r (seq 0 6 ++ seq 21 3).

(** The five labeling rules of the specification, in its order. *)
Definition labeling_rules : list ((AggRow → bool) * string) :=
  let med := ar_median_dwell_mins in
  [ (λ r, bool_decide (lunch r < morning r ∧ (med r < 15)%Q),
     "Lobby/Entry");
    (λ r, bool_decide ((25 <= med r)%Q ∧ (med r <= 150)%Q
                       ∧ morning r < lunch r ∧ evening r < lunch r),
     "Conference/Meeting");
    (λ r, bool_decide ((med r < 10)%Q ∧ 50 < morning r + lunch r + evening r
                       ∧ night r = 0),
     "Hallway/Break");
    (λ r, bool_decide ((40 <= med r)%Q ∧ (med r <= 90)%Q
                       ∧ morning r + evening r < lunch r ∧ 20 < lunch r),
     "Cafeteria");
    (λ r, bool_decide (morning r + lunch r + evening r < night r
                       ∧ (60 <= med r)%Q),
     "Security/Overnight/Server") ].

(** Last match wins: the label of the last rule of the list whose
    predicate holds, the default label when none does. *)
Definition last_match_wins (rules : list ((AggRow → bool) * string))
    (default_label : string) (r : AggRow) : string :=
  default default_label (snd <$> last (filter (λ rule, rule.1 r = true) rules)).

(** The visits of a log: its dwell rows, each with the hour derived from
    its timestamp. *)
Definition visits_of (d : list Row) (hours : list (option nat))
    : list (DwellRow * option nat) :=
  zip (dwell_frame d) hours.

Definition hour_in (hs : list nat) (o : option nat) : Prop :=
  match o with
  | Some h => h ∈ hs
  | None => False
  end.

Global Instance hour_in_dec hs o : Decision (hour_in hs o).
Proof. destruct o; simpl; apply _. Defined.

(** The traffic of a room over a window of hours: the number of its visits
    whose hour lies in the window. *)
Definition room_traffic (vs : list (DwellRow * option nat)) (room : string)
    (hs : list nat) : Z :=
  Z.of_nat (length (filter (λ v, dr_room v.1 = room ∧ hour_in hs v.2) vs)).

(** The clipped dwell values of the visits of a room. *)
Definition room_dwells (vs : list DwellRow) (room : string) : list Q :=
  dwell_mins <$> filter (λ r, dr_room r = room) vs.

(** The windows of hours of the labeling rules. *)
Definition morning_hours : list nat := [7; 8; 9]%nat.
Definition lunch_hours : list nat := [11; 12; 13]%nat.
Definition evening_hours : list nat := [16; 17; 18; 19]%nat.
Definition night_hours : list nat := [0; 1; 2; 3; 4; 5; 21; 22; 23]%nat.

(** What a labeling rule looks at: the median dwell of a room and its
    traffic over the four windows. *)
Definition rule_inputs (vs : list (DwellRow * option nat)) (room : string)
    (med : Q) (r : AggRow) : Prop :=
  ar_median_dwell_mins r = med
  ∧ morning r = room_traffic vs room morning_hours
  ∧ lunch r = room_traffic vs room lunch_hours
  ∧ evening r = room_traffic vs room evening_hours
  ∧ night r = room_traffic vs room night_hours.

(** ** A reference library

    An instance of the library operations on which the analyses can be
    run: timestamps of the plain form [YYYY-MM-DDTHH:MM:SS] (no offset),
    the hour read from the same form, and a descending sort by insertion
    over (position, value) pairs. *)

Definition digit_of (c : ascii) : option Z :=
  let n := Z.of_N (N_of_ascii c) in
  if (48 <=? n) && (n <=? 57) then Some (n - 48) else None.

Fixpoint number_of (acc : Z) (s : string) : option Z :=
  match s with
  | EmptyString => Some acc
  | String c t => d ← digit_of c; number_of (10 * acc + d) t
  end.

Definition field (ts : string) (pos len : nat) : option Z :=
  let f := substring pos len ts in
  if decide (String.length f = len) then number_of 0 f else None.

Definition is_leap (y : Z) : bool :=
  (y mod 4 =? 0) && (negb (y mod 100 =? 0) || (y mod 400 =? 0)).

Definition days_in_month (y m : Z) : Z :=
  if (m =? 4) || (m =? 6) || (m =? 9) || (m =? 11) then 30
  else if m =? 2 then (if is_leap y then 29 else 28)
  else 31.

(** Days from 1970-01-01 to the given day of the proleptic Gregorian
    calendar. *)
Definition days_from_civil (y m d : Z) : Z :=
  let y := if m <=? 2 then y - 1 else y in
  let era := y / 400 in
  let yoe := y - era * 400 in
  let doy := (153 * ((m + 9) mod 12) + 2) / 5 + d - 1 in
  let doe := yoe * 365 + yoe / 4 - yoe / 100 + doy in
  era * 146097 + doe - 719468.

Record plain_timestamp := {
  pt_year : Z; pt_month : Z; pt_day : Z;
  pt_hour : Z; pt_minute : Z; pt_second : Z
}.

Definition plain_fields (ts : string) : option plain_timestamp :=
  if decide (String.length ts = 19%nat
             ∧ get 4 ts = Some "-"%char ∧ get 7 ts = Some "-"%char
             ∧ get 10 ts = Some "T"%char
             ∧ get 13 ts = Some ":"%char ∧ get 16 ts = Some ":"%char)
  then
    y ← field ts 0 4; m ← field ts 5 2; d ← field ts 8 2;
    h ← field ts 11 2; mi ← field ts 14 2; sec ← field ts 17 2;
    if decide (1 ≤ m ≤ 12 ∧ 1 ≤ d ≤ days_in_month y m
               ∧ h ≤ 23 ∧ mi ≤ 59 ∧ sec ≤ 59)
    then Some {| pt_year := y; pt_month := m; pt_day := d;
                 pt_hour := h; pt_minute := mi; pt_second := sec |}
    else None
  else None.

Definition plain_isoparse (ts : string) : option datetime :=
  t ← plain_fields ts;
  Some {| dt_wall :=
            (days_from_civil (pt_year t) (pt_month t) (pt_day t) * 86400
             + pt_hour t * 3600 + pt_minute t * 60 + pt_second t) * 1000000;
          dt_tzinfo := None |}.

Definition plain_hours (col : list string) : option (list (option nat)) :=
  Some ((λ ts, t ← plain_fields ts; Some (Z.to_nat (pt_hour t))) <$> col).

Definition value_ge (a b : nat * Z) : Prop := b.2 ≤ a.2.

Global Instance value_ge_dec : RelDecision value_ge.
Proof. intros a b. unfold value_ge. apply _. Defined.

Definition insertion_argsort_desc (vals : list Z) : list nat :=
  (stable_sort value_ge (zip (seq 0 (length vals)) vals)).*1.

(** ** Sample logs *)

Definition mk_event (u loc ts : string) (s : option pyval) : AccessEvent :=
  {| user_id := u; location_id := loc; room_id := loc;
     timestamp := ts; success := s |}.

(** U1 moves A -> B after 3600 s, stays at B, moves B -> A after 14399 s
    and A -> B after 14400 s; U2 is seen once, at C. *)
Definition travel_log : list AccessEvent :=
  [ mk_event "U1" "A" "2024-03-01T00:00:00" None;
    mk_event "U2" "C" "2024-03-01T00:30:00" None;
    mk_event "U1" "B" "2024-03-01T01:00:00" None;
    mk_event "U1" "B" "2024-03-01T09:00:00" None;
    mk_event "U1" "A" "2024-03-01T12:59:59" None;
    mk_event "U1" "B" "2024-03-01T16:59:59" None ].

Definition travel_rows : list Row :=
  zip_with (λ e ep, {| ev := e; epoch := ep |}) travel_log
    [1709251200; 1709253000; 1709254800; 1709283600; 1709297999; 1709312399].

(** The second record does not carry a timestamp of the calendar. *)
Definition broken_log : list AccessEvent :=
  [ mk_event "U1" "A" "2024-03-01T00:00:00" None;
    mk_event "U1" "B" "2024-02-30T00:00:00" None;
    mk_event "U2" "A" "2024-03-01T02:00:00" None ].

(** U2 may enter Y only.  U1 and U2 fail at rooms they may not enter; U3
    and U5 carry a [success] that is not the boolean false; U4 carries
    none; U2 also fails at Y, and U6 succeeds at a room it may not enter. *)
Definition curious_log : list AccessEvent :=
  [ mk_event "U2" "X" "2024-03-01T00:00:00" (Some (PyBool false));
    mk_event "U3" "X" "2024-03-01T00:01:00" (Some (PyInt 0));
    mk_event "U4" "X" "2024-03-01T00:02:00" None;
    mk_event "U1" "Y" "2024-03-01T00:03:00" (Some (PyBool false));
    mk_event "U5" "X" "2024-03-01T00:04:00" (Some (PyStr "false"));
    mk_event "U2" "Y" "2024-03-01T00:05:00" (Some (PyBool false));
    mk_event "U6" "X" "2024-03-01T00:06:00" (Some (PyBool true));
    mk_event "U1" "Z" "2024-03-01T00:07:00" (Some (PyBool false)) ].

Definition curious_allowed : gmap string (gset string) :=
  {[ "U2" := {[ "Y" ]} ]}.

(** Ten users enter R1 between 11:00 and 11:54 and badge in the hall 45
    minutes later. *)
Definition conference_log : list AccessEvent :=
  [ mk_event "V0" "R1" "2024-03-01T11:00:00" None;
    mk_event "V0" "HALL" "2024-03-01T11:45:00" None;
    mk_event "V1" "R1" "2024-03-01T11:06:00" None;
    mk_event "V1" "HALL" "2024-03-01T11:51:00" None;
    mk_event "V2" "R1" "2024-03-01T11:12:00" None;
    mk_event "V2" "HALL" "2024-03-01T11:57:00" None;
    mk_event "V3" "R1" "2024-03-01T11:18:00" None;
    mk_event "V3" "HALL" "2024-03-01T12:03:00" None;
    mk_event "V4" "R1" "2024-03-01T11:24:00" None;
    mk_event "V4" "HALL" "2024-03-01T12:09:00" None;
    mk_event "V5" "R1" "2024-03-01T11:30:00" None;
    mk_event "V5" "HALL" "2024-03-01T12:15:00" None;
    mk_event "V6" "R1" "2024-03-01T11:36:00" None;
    mk_event "V6" "HALL" "2024-03-01T12:21:00" None;
    mk_event "V7" "R1" "2024-03-01T11:42:00" None;
    mk_event "V7" "HALL" "2024-03-01T12:27:00" None;
    mk_event "V8" "R1" "2024-03-01T11:48:00" None;
    mk_event "V8" "HALL" "2024-03-01T12:33:00" None;
    mk_event "V9" "R1" "2024-03-01T11:54:00" None;
    mk_event "V9" "HALL" "2024-03-01T12:39:00" None ].

(** Two records of one user with one timestamp, in this order. *)
Definition tie_rows : list Row :=
  [ {| ev := mk_event "U2" "B" "2024-03-01T00:00:05" None; epoch := 5 |};
    {| ev := mk_event "U1" "X" "2024-03-01T00:00:07" None; epoch := 7 |};
    {| ev := mk_event "U1" "Y" "2024-03-01T00:00:07" None; epoch := 7 |};
    {| ev := mk_event "U1" "Z" "2024-03-01T00:00:03" None; epoch := 3 |} ].

(** ** Further notions *)

(** The absolute instant of a parsed timestamp in microseconds since the
    epoch; a reading without offset is UTC. *)
Definition instant (dt : datetime) : Z := dt_wall dt - default 0 (dt_tzinfo dt).

(** The order of the rows of a travel result: by user, then by the time of
    the second event. *)
Definition finding_le (f g : TravelFinding) : Prop :=
  (tf_user_id f ≠ tf_user_id g ∧ (tf_user_id f ≤ tf_user_id g)%string) ∨
  (tf_user_id f = tf_user_id g ∧ second_ts f ≤ second_ts g).

(** The conditions of the five labeling rules, as [label_row] tests them. *)
Definition lobby_rule (r : AggRow) : Prop :=
  lunch r < morning r ∧ (ar_median_dwell_mins r < 15)%Q.
Definition conference_rule (r : AggRow) : Prop :=
  (25 <= ar_median_dwell_mins r)%Q ∧ (ar_median_dwell_mins r <= 150)%Q
  ∧ morning r < lunch r ∧ evening r < lunch r.
Definition hallway_rule (r : AggRow) : Prop :=
  (ar_median_dwell_mins r < 10)%Q ∧ 50 < morning r + lunch r + evening r
  ∧ night r = 0.
Definition cafeteria_rule (r : AggRow) : Prop :=
  (40 <= ar_median_dwell_mins r)%Q ∧ (ar_median_dwell_mins r <= 90)%Q
  ∧ morning r + evening r < lunch r ∧ 20 < lunch r.
Definition security_rule (r : AggRow) : Prop :=
  morning r + lunch r + evening r < night r ∧ (60 <= ar_median_dwell_mins r)%Q.

(** The sort key of a row. *)
Definition row_key (r : Row) : string * Z := (row_user r, epoch r).

(** The row [with_epoch] makes of an event whose timestamp parses. *)
Definition row_of `{Library} (e : AccessEvent) : Row :=
  {| ev := e;
     epoch := match iso_to_epoch (timestamp e) with
              | Ok ep => ep
              | Err _ => 0
              end |}.

(** ** A sample runtime

    A runtime on which the loading code and [main] can be run: [strip]
    over the ASCII white space, a file system of five files, and a decoder
    that knows the documents these files hold by the text of their lines. *)

Definition is_space (c : ascii) : bool :=
  let n := N_of_ascii c in
  bool_decide (n = 32 ∨ 9 ≤ n ≤ 13)%N.

Fixpoint lstrip (s : string) : string :=
  match s with
  | String c t => if is_space c then lstrip t else s
  | EmptyString => s
  end.

Definition ascii_strip (s : string) : string :=
  String.rev (lstrip (String.rev (lstrip s))).

Definition nl : string := String "010"%char EmptyString.

Definition json_of_event (e : AccessEvent) : json :=
  JObject ([ ("user_id", JStr (user_id e));
             ("location_id", JStr (location_id e));
             ("room_id", JStr (room_id e));
             ("timestamp", JStr (timestamp e)) ]
           ++ match success e with
              | Some (PyBool b) => [("success", JBool b)]
              | _ => []
              end).

Definition text_of (fields : list (string * json)) (k : string) : string :=
  match dict_get fields k with
  | Some (JStr s) => s
  | _ => ""
  end.

Definition pyval_of_json (v : json) : pyval :=
  match v with
  | JBool b => PyBool b
  | JInt n => PyInt n
  | JFloat q => PyFloat q
  | JStr s => PyStr s
  | _ => PyNone
  end.

(** The frame of a list of records: a record without the key [success]
    holds NaN there when another record has the key. *)
Definition event_of_json (has_success : bool) (row : json) : option AccessEvent :=
  match row with
  | JObject fields =>
      Some {| user_id := text_of fields "user_id";
              location_id := text_of fields "location_id";
              room_id := text_of fields "room_id";
              timestamp := text_of fields "timestamp";
              success :=
                match dict_get fields "success" with
                | Some v => Some (pyval_of_json v)
                | None => if has_success then Some PyNaN else None
                end |}
  | _ => None
  end.

Definition keys_of (row : json) : list string :=
  match row with
  | JObject fields => fields.*1
  | _ => []
  end.

Definition sample_frame (rows : list json) : Frame :=
  let labels := remove_dups (mjoin (keys_of <$> rows)) in
  {| columns := labels;
     records := omap (event_of_json (bool_decide ("success" ∈ labels))) rows |}.

Definition line_names (name : string) (n : nat) : list string :=
  (λ i, name +:+ pretty i) <$> seq 0 n.

Definition sample_profile : json :=
  JObject [("U2", JObject [("user_id", JStr "U2");
                           ("allowed_rooms", JList [JStr "Y"])])].

(** Three records without [room_id]; the first is a failed access. *)
Definition noroom_rows : list json :=
  [ JObject [("user_id", JStr "U1"); ("location_id", JStr "A");
             ("timestamp", JStr "2024-03-01T00:00:00");
             ("success", JBool false)];
    JObject [("user_id", JStr "U1"); ("location_id", JStr "B");
             ("timestamp", JStr "2024-03-01T01:00:00")];
    JObject [("user_id", JStr "U2"); ("location_id", JStr "A");
             ("timestamp", JStr "2024-03-01T02:00:00")] ].

Definition sample_documents : list (string * json) :=
  zip (line_names "travel-" 6) (json_of_event <$> travel_log)
  ++ zip (line_names "broken-" 3) (json_of_event <$> broken_log)
  ++ zip (line_names "noroom-" 3) noroom_rows
  ++ [("profile", sample_profile)].

(** The file [travel.jsonl] holds a blank line after its first line. *)
Definition sample_files (path : string) : option (list string) :=
  if decide (path = "travel.jsonl")
  then Some (match (λ l, l +:+ nl) <$> line_names "travel-" 6 with
             | first :: rest => first :: (" " +:+ nl) :: rest
             | [] => []
             end)
  else if decide (path = "broken.jsonl")
  then Some ((λ l, l +:+ nl) <$> line_names "broken-" 3)
  else if decide (path = "noroom.jsonl")
  then Some ((λ l, l +:+ nl) <$> line_names "noroom-" 3)
  else if decide (path = "empty.jsonl")
  then Some [nl; " " +:+ nl]
  else if decide (path = "profile.json")
  then Some ["profile"]
  else None.

Definition sample_runtime : Runtime :=
  {| py_strip := ascii_strip;
     json_loads := dict_get sample_documents;
     DataFrame := sample_frame;
     DataFrame_nil := eq_refl;
     open_lines := sample_files |}.

(** The dwell rows of the travel log, each with an hour. *)
Definition sample_hours : list HourRow :=
  (λ r, {| hr_row := r; hour := Some 9%nat |}) <$> dwell_frame travel_rows.

(** Two records of one user, then a dict whose value names another user. *)
Definition sample_records : list json :=
  [ JObject [("user_id", JStr "U1"); ("allowed_rooms", JList [JStr "A"])];
    JObject [("user_id", JStr "U1"); ("allowed_rooms", JList [JStr "B"])] ].

Definition sample_items : list (string * json) :=
  [ ("U1", JObject [("user_id", JStr "U9"); ("allowed_rooms", JList [JStr "A"])]) ].

Definition sample_columns : list string :=
  ["user_id"; "location_id"; "room_id"; "timestamp"].

Definition sample_argv (events : string) : list string :=
  ["analyze_badges.py"; events; "profile.json"].

(** * Properties *)

(** ** Sorting *)

Section stable_sort_facts.
Context {A : Type} (R : relation A) `{!RelDecision R}.

Lemma insert_sorted_perm x l : insert_sorted R x l ≡ₚ x :: l.
Proof.
  induction l as [|y t IH]; simpl; [done|].
  case_decide; [done|]. rewrite IH. apply Permutation_swap.
Qed.

Lemma stable_sort_perm l : stable_sort R l ≡ₚ l.
Proof.
  induction l as [|x t IH]; simpl; [done|].
  rewrite insert_sorted_perm. by f_equiv.
Qed.

Lemma stable_sort_elem_of x l : x ∈ stable_sort R l ↔ x ∈ l.
Proof. by rewrite stable_sort_perm. Qed.

Lemma stable_sort_length l : length (stable_sort R l) = length l.
Proof. by rewrite stable_sort_perm. Qed.

Lemma insert_sorted_front x l :
  (∀ y, head l = Some y → R x y) → insert_sorted R x l = x :: l.
Proof.
  destruct l as [|y t]; simpl; [done|].
  intros Hy. by rewrite decide_True by auto.
Qed.

(** Rows that the order does not tell apart keep their places. *)
Lemma insert_sorted_filter (P : A → Prop) `{!∀ x, Decision (P x)} x l :
  (∀ y, P x → P y → R x y) →
  filter P (insert_sorted R x l) = filter P (x :: l).
Proof.
  intros HR. induction l as [|y t IH]; simpl; [done|].
  case_decide as Hxy; [done|].
  rewrite filter_cons, IH, !filter_cons.
  destruct (decide (P y)), (decide (P x)); try done.
  destruct Hxy. auto.
Qed.

Lemma stable_sort_filter (P : A → Prop) `{!∀ x, Decision (P x)} l :
  (∀ x y, P x → P y → R x y) →
  filter P (stable_sort R l) = filter P l.
Proof.
  intros HR. induction l as [|x t IH]; simpl; [done|].
  rewrite insert_sorted_filter by auto.
  by rewrite !filter_cons, IH.
Qed.

Context `{!Transitive R, !Total R}.

Lemma insert_sorted_sorted x l :
  StronglySorted R l → StronglySorted R (insert_sorted R x l).
Proof.
  induction 1 as [|y t Hs IH Hall]; simpl.
  - repeat constructor.
  - case_decide as Hxy.
    + constructor; [by constructor|].
      constructor; [done|].
      eapply Forall_impl; [exact Hall|]. intros z Hz. by etrans.
    + constructor; [done|].
      rewrite insert_sorted_perm. constructor; [|done].
      by destruct (total R x y).
Qed.

Lemma stable_sort_sorted l : StronglySorted R (stable_sort R l).
Proof.
  induction l; simpl; [constructor|]. by apply insert_sorted_sorted.
Qed.

End stable_sort_facts.

(** Sorting by a compound order and then keeping one class is sorting that
    class by the order [R'] the compound order induces on it. *)
Section stable_sort_class.
Context {A : Type} (R : relation A) `{!RelDecision R, !Transitive R, !Total R}
        (R' : relation A) `{!RelDecision R'}
        (P : A → Prop) `{!∀ x, Decision (P x)}.
Hypothesis R_on_class : ∀ x y, P x → P y → R x y ↔ R' x y.

Lemma insert_sorted_class x l :
  StronglySorted R l →
  filter P (insert_sorted R x l) =
    if decide (P x) then insert_sorted R' x (filter P l) else filter P l.
Proof.
  induction 1 as [|y t Hs IH Hall].
  - cbn. by destruct (decide (P x)).
  - cbn [insert_sorted]. destruct (decide (R x y)) as [Hxy|Hxy].
    + rewrite (filter_cons _ x). destruct (decide (P x)) as [Hx|Hx]; [|done].
      rewrite insert_sorted_front; [done|].
      intros z Hz%head_Some_elem_of.
      apply list_elem_of_filter in Hz as [Hz Hin].
      apply R_on_class; [done..|].
      apply elem_of_cons in Hin as [->|Hin]; [done|].
      etrans; [exact Hxy|]. by eapply Forall_forall in Hall.
    + rewrite !(filter_cons _ y), IH.
      destruct (decide (P y)) as [Hy|Hy], (decide (P x)) as [Hx|Hx];
        simpl; try done.
      rewrite decide_False; [done|]. by rewrite <-R_on_class.
Qed.

Lemma stable_sort_class l :
  filter P (stable_sort R l) = stable_sort R' (filter P l).
Proof.
  induction l as [|x t IH]; simpl; [done|].
  rewrite insert_sorted_class by by apply stable_sort_sorted.
  rewrite filter_cons, IH. destruct (decide (P x)); reflexivity.
Qed.
End stable_sort_class.

Lemma omap_cons_option_list {A B} (f : A → option B) x l :
  omap f (x :: l) = (option_list (f x) ++ omap f l).
Proof. simpl. by destruct (f x). Qed.

Lemma consecutive_pairs_cons {A} (a b : A) s :
  consecutive_pairs (a :: b :: s) = (a, b) :: consecutive_pairs (b :: s).
Proof. reflexivity. Qed.

(** ** The order of the per-user sort *)

Global Instance row_le_trans : Transitive row_le.
Proof.
  intros a b c [[Hne1 Hle1]|[He1 Hle1]] [[Hne2 Hle2]|[He2 Hle2]];
    unfold row_le.
  - left. split; [|by etrans].
    intros Heq. rewrite Heq in Hle1. destruct Hne2.
    by apply (anti_symm String.le).
  - left. rewrite <-He2. done.
  - left. rewrite He1. done.
  - right. split; [congruence|lia].
Qed.

Global Instance row_le_total : Total row_le.
Proof.
  intros a b. unfold row_le.
  destruct (decide (row_user a = row_user b)) as [Heq|Hne].
  - destruct (Z.le_ge_cases (epoch a) (epoch b)); [left|right]; right; auto with lia.
  - destruct (total String.le (row_user a) (row_user b)); [left|right]; left; auto.
Qed.

Lemma sort_values_sorted d : StronglySorted row_le (sort_values d).
Proof. apply stable_sort_sorted; apply _. Qed.

Lemma sort_values_perm d : sort_values d ≡ₚ d.
Proof. apply stable_sort_perm. Qed.

(** What the sorted frame holds for one user is that user's time-sorted
    sequence. *)
Lemma sort_values_user u d :
  filter (λ r, row_user r = u) (sort_values d) = per_user_sequence u d.
Proof.
  apply stable_sort_class; [apply _..|].
  intros x y Hx Hy. unfold row_le, epoch_le. split.
  - intros [[Hne _]|[_ Hle]]; [congruence|done].
  - intros Hle. right. split; [congruence|done].
Qed.

Lemma per_user_sequence_sorted u d :
  StronglySorted epoch_le (per_user_sequence u d).
Proof.
  apply stable_sort_sorted.
  - intros a b c. unfold epoch_le. lia.
  - intros a b. unfold epoch_le. lia.
Qed.

Lemma per_user_sequence_elem_of u d r :
  r ∈ per_user_sequence u d ↔ r ∈ d ∧ row_user r = u.
Proof.
  unfold per_user_sequence.
  rewrite stable_sort_elem_of, list_elem_of_filter. tauto.
Qed.

(** ** TravelDetector *)

Lemma FOUR_HOURS_SECS_eq : FOUR_HOURS_SECS = 14400.
Proof. reflexivity. Qed.

Lemma finding_of_add_prev r p :
  finding_of (add_prev r p) = a ← p; pair_finding (a, r).
Proof.
  destruct p as [a|]; [|reflexivity].
  unfold finding_of, travel_mask, pair_finding, add_prev; simpl.
  rewrite FOUR_HOURS_SECS_eq.
  destruct (decide (_ ∧ _)) as [[Hloc Hlt]|Hno].
  - rewrite !bool_decide_true; [done|lia|congruence].
  - destruct (decide (location_id (ev r) = location_id (ev a))) as [Heq|Hne].
    + rewrite (bool_decide_false (Some _ ≠ _)); [done|]. rewrite Heq. tauto.
    + rewrite (bool_decide_false (_ < _)); [|tauto].
      by rewrite andb_false_r.
Qed.

Lemma pair_finding_user a b f :
  pair_finding (a, b) = Some f → tf_user_id f = row_user b.
Proof. unfold pair_finding. case_decide; [|done]. by intros [= <-]. Qed.

(** The findings of one user are those of the consecutive pairs of that
    user's rows; [seen] holds the rows above the frame, nearest first. *)
Lemma travel_findings_user u seen l :
  filter (λ f, tf_user_id f = u) (omap finding_of (travel_frame seen l)) =
  omap pair_finding
    (consecutive_pairs
       (option_list (head (filter (λ r, row_user r = u) seen))
        ++ filter (λ r, row_user r = u) l)).
Proof.
  revert seen. induction l as [|r t IH]; intros seen.
  - rewrite app_nil_r. by destruct (head _).
  - change (travel_frame seen (r :: t))
      with (add_prev r (head (filter (same_user r) seen))
            :: travel_frame (r :: seen) t).
    rewrite (filter_cons _ r t).
    rewrite omap_cons_option_list, filter_app, IH, (filter_cons _ r seen), finding_of_add_prev.
    destruct (decide (row_user r = u)) as [<-|Hne].
    + change (filter (same_user r) seen)
        with (filter (λ r', row_user r' = row_user r) seen).
      simpl (head (_ :: _)).
      destruct (head (filter _ seen)) as [a|]; [|done].
      simpl (option_list (Some _) ++ _). simpl (Some _ ≫= _).
      rewrite consecutive_pairs_cons, omap_cons_option_list. f_equal.
      destruct (pair_finding (a, r)) as [f|] eqn:Hf; [|done].
      simpl (option_list _).
      by rewrite filter_cons, decide_True by by eapply pair_finding_user.
    + destruct (head (filter (same_user r) seen) ≫= _) as [f|] eqn:Hf;
        simpl; [|done].
      destruct (head (filter (same_user r) seen)) as [a|]; [|done].
      apply pair_finding_user in Hf.
      rewrite filter_cons, decide_False by congruence. done.
Qed.

Lemma consecutive_pairs_lookup {A} (s : list A) i a b :
  consecutive_pairs s !! i = Some (a, b) ↔ s !! i = Some a ∧ s !! S i = Some b.
Proof.
  unfold consecutive_pairs. rewrite lookup_zip_with_Some, <-lookup_tail.
  split.
  - intros (x & y & [= -> ->] & Hx & Hy). done.
  - intros [Ha Hb]. by exists a, b.
Qed.

Section travel_detector.
Context `{Library}.

Lemma detect_impossible_travel_ok df d :
  with_epoch df = Ok d →
  detect_impossible_travel df
  = Ok (omap finding_of (travel_frame [] (sort_values d))).
Proof. intros Hd. unfold detect_impossible_travel. by rewrite Hd. Qed.

(** C1.  Whenever every timestamp parses, TravelDetector returns, and its
    result is read off the per-user time-sorted sequences: the findings of
    a user are, in order, those of the consecutive pairs of that user's
    sequence, a pair giving a finding if and only if the second location
    differs from the first and strictly less than 14400 seconds elapsed
    (so 14399 seconds give one, 14400 give none, and an unchanged location
    gives none whatever the time).  The finding of a pair carries both
    locations, both epochs and their difference as [delta_secs]. *)
Theorem travel_detector_consecutive_pairs df d :
  with_epoch df = Ok d →
  ∃ res, detect_impossible_travel df = Ok res ∧
    (∀ u, filter (λ f, tf_user_id f = u) res
          = omap pair_finding (consecutive_pairs (per_user_sequence u d))) ∧
    (∀ u i a b,
        per_user_sequence u d !! i = Some a →
        per_user_sequence u d !! S i = Some b →
        finding_for a b ∈ res ↔
          location_id (ev b) ≠ location_id (ev a)
          ∧ epoch b - epoch a < 14400) ∧
    (∀ f, f ∈ res →
          delta_secs f = second_ts f - first_ts f
          ∧ first_location f ≠ second_location f
          ∧ delta_secs f < 14400).
Proof.
  intros Hd. eexists. split; [by apply detect_impossible_travel_ok|].
  set (res := omap finding_of (travel_frame [] (sort_values d))).
  assert (Huser : ∀ u, filter (λ f, tf_user_id f = u) res
            = omap pair_finding (consecutive_pairs (per_user_sequence u d))).
  { intros u. unfold res. rewrite travel_findings_user.
    by rewrite sort_values_user. }
  assert (Hin : ∀ f, f ∈ res ↔
            ∃ p, p ∈ consecutive_pairs (per_user_sequence (tf_user_id f) d)
                 ∧ pair_finding p = Some f).
  { intros f. rewrite <-list_elem_of_omap, <-Huser, list_elem_of_filter.
    tauto. }
  split; [done|]. split.
  - intros u i a b Ha Hb.
    assert (row_user b = u) as Hu.
    { by eapply per_user_sequence_elem_of, list_elem_of_lookup_2. }
    rewrite Hin. simpl. rewrite Hu. split.
    + intros ([a' b'] & _ & Hf). unfold pair_finding in Hf. simpl in Hf.
      case_decide as Hc; [|done]. injection Hf as _ Hl1 Hl2 He1 He2 _.
      rewrite <-Hl1, <-Hl2, <-He1, <-He2. done.
    + intros Hc. exists (a, b). split.
      * eapply list_elem_of_lookup_2. by apply consecutive_pairs_lookup.
      * unfold pair_finding. by rewrite decide_True.
  - intros f ([a b] & _ & Hf)%Hin. unfold pair_finding in Hf. simpl in Hf.
    case_decide as Hc; [|done]. injection Hf as <-. simpl.
    destruct Hc as [Hloc Hlt]. auto.
Qed.

End travel_detector.

(** ** The per-user sort is stable *)

(** C5.  The sort both analyses start from is a sort (the same rows,
    ascending by user and then epoch) and is stable: the rows of one user
    with one epoch stand in the sorted frame in their input order, and what
    the sorted frame holds for a user is the stable epoch sort of that
    user's rows in input order, so the neighbours that [shift(1)] and
    [shift(-1)] read are fixed by the input order wherever epochs tie. *)
Theorem sort_values_stable (d : list Row) :
  sort_values d ≡ₚ d ∧
  StronglySorted row_le (sort_values d) ∧
  (∀ u t, filter (λ r, row_user r = u ∧ epoch r = t) (sort_values d)
          = filter (λ r, row_user r = u ∧ epoch r = t) d) ∧
  (∀ u, filter (λ r, row_user r = u) (sort_values d)
        = stable_sort epoch_le (filter (λ r, row_user r = u) d)).
Proof.
  split; [apply sort_values_perm|].
  split; [apply sort_values_sorted|].
  split; [|intros u; apply sort_values_user].
  intros u t. apply stable_sort_filter.
  intros x y [Hx Hxt] [Hy Hyt]. right. split; [congruence|lia].
Qed.

(** ** EventNormalizer: a timestamp that does not parse ends the run *)

Section normalizer.
Context `{Library}.

Lemma with_epoch_cons e df :
  with_epoch (e :: df) =
    ep ← iso_to_epoch (timestamp e);
    d ← with_epoch df;
    Ok ({| ev := e; epoch := ep |} :: d).
Proof.
  unfold with_epoch. simpl. by destruct (iso_to_epoch (timestamp e)).
Qed.

Lemma iso_to_epoch_Err ts : isoparse ts = None → iso_to_epoch ts = Err (ParseError ts).
Proof. unfold iso_to_epoch. by intros ->. Qed.

Lemma iso_to_epoch_Ok ts ep : iso_to_epoch ts = Ok ep → is_Some (isoparse ts).
Proof. unfold iso_to_epoch. destruct (isoparse ts); [eauto|done]. Qed.

Lemma with_epoch_Err df e :
  e ∈ df → isoparse (timestamp e) = None →
  ∃ ts, isoparse ts = None ∧ with_epoch df = Err (ParseError ts).
Proof.
  intros Hin He. induction df as [|x t IH]; [by apply elem_of_nil in Hin|].
  rewrite with_epoch_cons.
  destruct (isoparse (timestamp x)) as [dt|] eqn:Hx.
  - apply elem_of_cons in Hin as [->|Hin]; [congruence|].
    destruct (IH Hin) as (ts & Hts & ->). exists ts. split; [done|].
    unfold iso_to_epoch. by rewrite Hx.
  - exists (timestamp x). by rewrite iso_to_epoch_Err.
Qed.

Lemma with_epoch_Ok df d :
  with_epoch df = Ok d →
  ev <$> d = df ∧ Forall (λ r, iso_to_epoch (timestamp (ev r)) = Ok (epoch r)) d.
Proof.
  revert d. induction df as [|x t IH]; intros d.
  - intros [= <-]. by split.
  - rewrite with_epoch_cons.
    destruct (iso_to_epoch (timestamp x)) as [ep|] eqn:Hx; [|done]. simpl.
    destruct (with_epoch t) as [d'|] eqn:Ht; [|done]. simpl.
    intros [= <-]. destruct (IH d' eq_refl) as [Hev Hall].
    split; [by rewrite fmap_cons, Hev|]. by constructor.
Qed.



End normalizer.

(** ** The one-column descending sort *)

Lemma omap_lookup_seq_app {A} (pre l : list A) :
  omap (λ i, (pre ++ l) !! i) (seq (length pre) (length l)) = l.
Proof.
  revert pre. induction l as [|x l IH]; intros pre; [done|].
  simpl. rewrite list_lookup_middle by done. f_equal.
  specialize (IH (pre ++ [x])).
  rewrite length_app, <-app_assoc, Nat.add_1_r in IH. exact IH.
Qed.

Lemma omap_lookup_fmap {A B} (f : A → B) (l : list A) (idx : list nat) :
  omap (λ i, (f <$> l) !! i) idx = f <$> omap (λ i, l !! i) idx.
Proof.
  induction idx as [|i idx IH]; [done|].
  rewrite !omap_cons_option_list, list_lookup_fmap, IH, fmap_app.
  by destruct (l !! i).
Qed.

Lemma StronglySorted_fmap_inv {A B} (f : A → B) (R : relation B) l :
  StronglySorted R (f <$> l) → StronglySorted (λ a b, R (f a) (f b)) l.
Proof.
  induction l as [|x l IH]; [constructor|].
  rewrite fmap_cons. intros [Hall Hs]%StronglySorted_cons.
  constructor; [auto|]. by rewrite Forall_fmap in Hall.
Qed.

Section sort_values_desc_facts.
Context `{Library} {A : Type} (col : A → Z).

Lemma sort_values_desc_perm rows : sort_values_desc col rows ≡ₚ rows.
Proof.
  unfold sort_values_desc. rewrite argsort_desc_perm, length_fmap.
  pose proof (omap_lookup_seq_app [] rows) as Hrows. simpl in Hrows.
  by rewrite Hrows.
Qed.

Lemma sort_values_desc_sorted rows :
  StronglySorted (λ a b, col b ≤ col a) (sort_values_desc col rows).
Proof.
  apply (StronglySorted_fmap_inv col (flip Z.le)).
  unfold sort_values_desc. rewrite <-omap_lookup_fmap.
  apply argsort_desc_sorted.
Qed.

Lemma sort_values_desc_elem_of rows x : x ∈ sort_values_desc col rows ↔ x ∈ rows.
Proof. by rewrite sort_values_desc_perm. Qed.
End sort_values_desc_facts.

(** ** AccessAuditor *)

Lemma group_keys_elem_of keys k : k ∈ group_keys keys ↔ k ∈ keys.
Proof.
  unfold group_keys. by rewrite stable_sort_elem_of, elem_of_remove_dups.
Qed.

Lemma group_keys_NoDup keys : NoDup (group_keys keys).
Proof.
  unfold group_keys. rewrite stable_sort_perm. apply NoDup_remove_dups.
Qed.

Lemma group_keys_sorted keys : StronglySorted String.le (group_keys keys).
Proof. apply stable_sort_sorted; apply _. Qed.

Lemma is_unauth_unauthorized df allowed_map e :
  e ∈ df →
  is_unauth allowed_map (has_success_column df) e = true
  ↔ unauthorized allowed_map e.
Proof.
  intros Hin.
  unfold is_unauth, unauthorized, allowed_rooms, row_get_success,
    has_success_column.
  rewrite andb_true_iff, bool_decide_eq_true.
  case_bool_decide as Hcol.
  - destruct (success e) as [[[]| | | | |]|]; simpl; intuition congruence.
  - split; [by intros [[=] _]|]. intros [Hs _]. destruct Hcol.
    apply Exists_exists. exists e. rewrite Hs. eauto.
Qed.

Lemma sum_curious_length g :
  Forall (λ r, curious r = true) g → sum_curious g = Z.of_nat (length g).
Proof.
  induction 1 as [|r g Hr _ IH]; [done|].
  simpl. rewrite Hr, IH. simpl. lia.
Qed.

(** The flagged rows of the frame are the unauthorized events of the log. *)
Lemma flagged_events (P : AccessEvent → Prop) `{!∀ e, Decision (P e)}
    df allowed_map :
  cr_event <$> filter (λ r, P (cr_event r))
                 (filter (λ r, curious r = true) (curious_frame df allowed_map))
  = filter (λ e, P e ∧ unauthorized allowed_map e) df.
Proof.
  unfold curious_frame.
  pose proof (is_unauth_unauthorized df allowed_map) as Hflag.
  generalize dependent (has_success_column df). intros has Hflag.
  induction df as [|e df IH]; [done|].
  rewrite fmap_cons, !filter_cons. simpl.
  assert (∀ e', e' ∈ df →
    is_unauth allowed_map has e' = true ↔ unauthorized allowed_map e') as Hdf.
  { intros e' He'. apply Hflag. by right. }
  specialize (Hflag e (list_elem_of_here _ _)).
  destruct (decide (is_unauth allowed_map has e = true)) as [Hu|Hu].
  - rewrite filter_cons. simpl.
    destruct (decide (P e)).
    + rewrite decide_True by tauto. rewrite fmap_cons. simpl. by rewrite IH.
    + rewrite decide_False by tauto. by rewrite IH.
  - rewrite decide_False by tauto. by rewrite IH.
Qed.

Lemma filter_True_id {A} (l : list A) : filter (λ _, True) l = l.
Proof.
  induction l as [|x l IH]; [done|]. by rewrite filter_cons_True, IH.
Qed.

Lemma unauthorized_count_pos allowed_map df u :
  1 ≤ unauthorized_count allowed_map df u
  ↔ ∃ e, e ∈ df ∧ user_id e = u ∧ unauthorized allowed_map e.
Proof.
  unfold unauthorized_count.
  destruct (filter _ df) as [|e l] eqn:Hf.
  - split; [simpl; lia|]. intros (e & Hin & Hu & Hun).
    assert (e ∈ filter (λ e, user_id e = u ∧ unauthorized allowed_map e) df)
      as He by by apply list_elem_of_filter.
    rewrite Hf in He. by apply elem_of_nil in He.
  - split; [|simpl; lia]. intros _. exists e.
    assert (e ∈ filter (λ e, user_id e = u ∧ unauthorized allowed_map e) df)
      as He by (rewrite Hf; left).
    apply list_elem_of_filter in He. tauto.
Qed.

Lemma unauthorized_count_nonneg allowed_map df u :
  0 ≤ unauthorized_count allowed_map df u.
Proof. unfold unauthorized_count. lia. Qed.

Lemma unauthorized_count_insert allowed_map p e q u :
  unauthorized_count allowed_map (p ++ e :: q) u
  = unauthorized_count allowed_map (p ++ q) u
    + (if decide (user_id e = u ∧ unauthorized allowed_map e) then 1 else 0).
Proof.
  unfold unauthorized_count.
  rewrite !filter_app, filter_cons, !length_app.
  case_decide; simpl; lia.
Qed.

Section auditor.
Context `{Library}.

(** The result is the descending sort of one row per user with an
    unauthorized attempt, listed by ascending user and each carrying the
    number of that user's attempts. *)
Lemma detect_curious_users_eq df allowed_map :
  detect_curious_users df allowed_map =
  sort_values_desc attempts
    ((λ u, {| cu_user_id := u;
              attempts := unauthorized_count allowed_map df u |})
     <$> group_keys (user_id <$> filter (unauthorized allowed_map) df)).
Proof.
  unfold detect_curious_users. f_equal.
  set (flagged := filter _ (curious_frame df allowed_map)).
  assert ((λ r, user_id (cr_event r)) <$> flagged
          = user_id <$> filter (unauthorized allowed_map) df) as ->.
  { rewrite (list_fmap_compose cr_event user_id).
    pose proof (flagged_events (λ _, True) df allowed_map) as Hfe.
    cbv beta in Hfe. rewrite filter_True_id in Hfe.
    fold flagged in Hfe. rewrite Hfe.
    f_equal. apply list_filter_iff. tauto. }
  apply list_fmap_ext. intros _ u _. f_equal.
  rewrite sum_curious_length.
  - unfold unauthorized_count, flagged.
    pose proof (flagged_events (λ e, user_id e = u) df allowed_map) as Hfe.
    cbv beta in Hfe. by rewrite <-Hfe, length_fmap.
  - apply Forall_forall. intros r Hr.
    apply list_elem_of_filter in Hr as [_ Hr].
    by apply list_elem_of_filter in Hr as [Hr _].
Qed.

Lemma detect_curious_users_perm df allowed_map :
  detect_curious_users df allowed_map ≡ₚ
  (λ u, {| cu_user_id := u;
           attempts := unauthorized_count allowed_map df u |})
  <$> group_keys (user_id <$> filter (unauthorized allowed_map) df).
Proof. rewrite detect_curious_users_eq. apply sort_values_desc_perm. Qed.

Lemma curious_row_iff df allowed_map u n :
  {| cu_user_id := u; attempts := n |} ∈ detect_curious_users df allowed_map
  ↔ n = unauthorized_count allowed_map df u ∧ 1 ≤ n.
Proof.
  rewrite detect_curious_users_perm, list_elem_of_fmap.
  setoid_rewrite group_keys_elem_of. setoid_rewrite list_elem_of_fmap.
  setoid_rewrite list_elem_of_filter. split.
  - intros (u' & [= -> ->] & e & -> & Hun & Hin). split; [done|].
    apply unauthorized_count_pos. eauto.
  - intros [-> (e & Hin & Hu & Hun)%unauthorized_count_pos].
    exists u. split; [done|]. eauto.
Qed.

Lemma curious_users_NoDup df allowed_map :
  NoDup (cu_user_id <$> detect_curious_users df allowed_map).
Proof.
  rewrite detect_curious_users_perm, <-list_fmap_compose.
  rewrite (list_fmap_ext _ id (group_keys _)) by done.
  rewrite list_fmap_id. apply group_keys_NoDup.
Qed.

Lemma attempts_of_detect df allowed_map u :
  attempts_of (detect_curious_users df allowed_map) u
  = unauthorized_count allowed_map df u.
Proof.
  unfold attempts_of.
  destruct (filter _ (detect_curious_users df allowed_map)) as [|[u' n] l] eqn:Hf.
  - simpl. pose proof (unauthorized_count_nonneg allowed_map df u).
    destruct (decide (1 ≤ unauthorized_count allowed_map df u)) as [Hpos|]; [|lia].
    assert ({| cu_user_id := u;
               attempts := unauthorized_count allowed_map df u |}
            ∈ filter (λ r, cu_user_id r = u) (detect_curious_users df allowed_map))
      as Hin.
    { apply list_elem_of_filter. split; [done|]. by apply curious_row_iff. }
    rewrite Hf in Hin. by apply elem_of_nil in Hin.
  - simpl.
    assert ({| cu_user_id := u'; attempts := n |}
            ∈ filter (λ r, cu_user_id r = u) (detect_curious_users df allowed_map))
      as Hin by (rewrite Hf; left).
    apply list_elem_of_filter in Hin as [Hu Hin]. simpl in Hu. subst u'.
    by apply curious_row_iff in Hin as [-> _].
Qed.

End auditor.

Section auditor_claims.
Context `{Library}.

(** C2.  AccessAuditor flags an event of the log exactly when its
    [success] field is the boolean false and its room is not in the allowed
    set of its user; the attempt count the result gives a user is the
    number of that user's events that meet this condition, so an event adds
    one to its user's count when it meets it and nothing otherwise.  An
    event whose [success] is absent or true is not flagged even for a
    disallowed room, and one with [success] false is not flagged for an
    allowed room. *)
Theorem unauthorized_attempt_counted df allowed_map :
  (∀ e, e ∈ df →
     is_unauth allowed_map (has_success_column df) e = true
     ↔ success e = Some (PyBool false)
       ∧ room_id e ∉ allowed_rooms allowed_map (user_id e)) ∧
  (∀ u, attempts_of (detect_curious_users df allowed_map) u
        = unauthorized_count allowed_map df u) ∧
  (∀ p e q, df = p ++ e :: q →
     attempts_of (detect_curious_users df allowed_map) (user_id e)
     = attempts_of (detect_curious_users (p ++ q) allowed_map) (user_id e)
       + (if decide (success e = Some (PyBool false)
                     ∧ room_id e ∉ allowed_rooms allowed_map (user_id e))
          then 1 else 0)) ∧
  (∀ e, e ∈ df → success e = None ∨ success e = Some (PyBool true) →
     is_unauth allowed_map (has_success_column df) e = false) ∧
  (∀ e, e ∈ df → room_id e ∈ allowed_rooms allowed_map (user_id e) →
     is_unauth allowed_map (has_success_column df) e = false).
Proof.
  split; [intros e He; by apply is_unauth_unauthorized|].
  split; [intros u; apply attempts_of_detect|].
  split.
  { intros p e q ->. rewrite !attempts_of_detect, unauthorized_count_insert.
    f_equal. unfold unauthorized.
    destruct (decide (success e = _ ∧ _)) as [Hc|Hc].
    - by rewrite decide_True.
    - rewrite decide_False; [done|]. tauto. }
  split.
  - intros e He Hs. apply not_true_is_false.
    intros [Hf _]%is_unauth_unauthorized; [|done].
    destruct Hs; congruence.
  - intros e He Hr. apply not_true_is_false.
    intros [_ Hf]%is_unauth_unauthorized; done.
Qed.

(** C7.  The result of AccessAuditor has no two rows for one user; it has
    the row [(u, n)] exactly when [n] is the number of unauthorized
    attempts of [u] and is at least 1, so a user without such an attempt
    has no row; and the attempt counts never increase along the rows.  The
    order among equal counts is the one the library's sort picks, a
    function of the counts. *)
Theorem curious_users_rows df allowed_map :
  let out := detect_curious_users df allowed_map in
  NoDup (cu_user_id <$> out) ∧
  (∀ u n, {| cu_user_id := u; attempts := n |} ∈ out
          ↔ n = unauthorized_count allowed_map df u ∧ 1 ≤ n) ∧
  (∀ u, unauthorized_count allowed_map df u = 0 → u ∉ cu_user_id <$> out) ∧
  StronglySorted (λ a b, attempts b ≤ attempts a) out ∧
  out = sort_values_desc attempts
          ((λ u, {| cu_user_id := u;
                    attempts := unauthorized_count allowed_map df u |})
           <$> group_keys (user_id <$> filter (unauthorized allowed_map) df)).
Proof.
  intros out. split; [apply curious_users_NoDup|].
  split; [intros u n; apply curious_row_iff|].
  split.
  { intros u Hz ([u' n] & -> & Hin)%list_elem_of_fmap. simpl in Hz.
    apply curious_row_iff in Hin as [-> Hn]. lia. }
  split; [apply sort_values_desc_sorted|].
  apply detect_curious_users_eq.
Qed.

(** Which values of [success] are falsy, and that none of them but the
    boolean false is [False]; the string "false" and NaN are not even
    falsy. *)
Lemma falsy_values_are_not_False :
  Forall (λ v, py_truthy v = false ∧ py_is_False v = false)
    [PyInt 0; PyFloat 0; PyStr ""; PyNone] ∧
  Forall (λ v, py_truthy v = true ∧ py_is_False v = false)
    [PyStr "false"; PyNaN; PyBool true] ∧
  (∀ v, py_is_False v = true ↔ v = PyBool false).
Proof.
  split; [|split].
  - repeat constructor.
  - repeat constructor.
  - intros [[]| | | | |]; split; done.
Qed.

(** C10.  An event whose [success] field holds anything but the boolean
    false (0, 0.0, the empty string, the string "false", None, NaN or any
    other value, falsy or not) is never flagged, since the test is identity
    with [False]; leaving the event out of the log changes no attempt
    count. *)
Theorem non_false_success_never_counted df allowed_map e v :
  e ∈ df → success e = Some v → v ≠ PyBool false →
  py_is_False v = false ∧
  is_unauth allowed_map (has_success_column df) e = false ∧
  (∀ p q u, df = p ++ e :: q →
     attempts_of (detect_curious_users df allowed_map) u
     = attempts_of (detect_curious_users (p ++ q) allowed_map) u).
Proof.
  intros He Hs Hv.
  assert (¬ unauthorized allowed_map e) as Hun.
  { intros [Hf _]. congruence. }
  split; [by destruct v as [[]| | | | |]|].
  split.
  - apply not_true_is_false. by intros Hf%is_unauth_unauthorized.
  - intros p q u ->.
    rewrite !attempts_of_detect, unauthorized_count_insert.
    rewrite decide_False by tauto. lia.
Qed.

End auditor_claims.

(** ** RoomProfiler: dwell *)

Lemma clip_clip_minutes x : (clip 0 240 x == clip_minutes x)%Q.
Proof.
  unfold clip, clip_minutes.
  destruct (Qlt_le_dec x 0) as [Hneg|Hnn].
  - rewrite Q.max_r by by apply Qlt_le_weak. by rewrite Q.min_l.
  - rewrite Q.max_l by done.
    destruct (Qlt_le_dec 240 x) as [Hbig|Hsmall].
    + apply Q.min_r. by apply Qlt_le_weak.
    + by apply Q.min_l.
Qed.

(** The dwell rows of one user are those of the consecutive pairs of that
    user's rows: the first row of a pair with the epoch of the second. *)
Lemma dwell_rows_user u l :
  Some <$> filter (λ r, row_user (dr_row r) = u)
             (omap id (zip_with dwell_of l (shift_next l)))
  = (λ p, dwell_of p.1 (Some p.2))
    <$> consecutive_pairs (filter (λ r, row_user r = u) l).
Proof.
  induction l as [|r t IH]; [done|].
  change (zip_with dwell_of (r :: t) (shift_next (r :: t)))
    with (dwell_of r (head (filter (same_user r) t))
          :: zip_with dwell_of t (shift_next t)).
  rewrite omap_cons_option_list, filter_app, fmap_app, IH, (filter_cons _ r t).
  destruct (decide (row_user r = u)) as [<-|Hne].
  - change (filter (same_user r) t)
      with (filter (λ r', row_user r' = row_user r) t).
    destruct (filter (λ r', row_user r' = row_user r) t) as [|n s]; [done|].
    rewrite consecutive_pairs_cons, fmap_cons. simpl (head _).
    simpl (option_list _). by rewrite filter_cons_True by done.
  - destruct (head (filter (same_user r) t)) as [n|]; [|done].
    simpl (option_list _). by rewrite filter_cons_False by done.
Qed.

Lemma consecutive_pairs_length {A} (s : list A) :
  length (consecutive_pairs s) = pred (length s).
Proof.
  induction s as [|a [|b s] IH]; [done..|].
  rewrite consecutive_pairs_cons. simpl in *. by rewrite IH.
Qed.

Lemma dwell_frame_user u d :
  Some <$> filter (λ r, row_user (dr_row r) = u) (dwell_frame d)
  = (λ p, dwell_of p.1 (Some p.2)) <$> consecutive_pairs (per_user_sequence u d).
Proof. unfold dwell_frame. by rewrite dwell_rows_user, sort_values_user. Qed.

(** C3.  For every event with a same-user successor in the per-user
    time-sorted sequence, RoomProfiler keeps one dwell row, at the same
    place among the user's dwell rows, whose dwell is the time to that next
    event in minutes clipped to [0, 240]; the user's last event gets no
    row.  The clipping turns 500 into 240 and -5 into 0. *)
Theorem dwell_from_next_event (d : list Row) (u : string) :
  let s := per_user_sequence u d in
  let rows := filter (λ r, row_user (dr_row r) = u) (dwell_frame d) in
  (∀ i a b, s !! i = Some a → s !! S i = Some b →
     ∃ r, rows !! i = Some r ∧ dr_row r = a ∧ next_epoch r = epoch b
          ∧ (dwell_mins r == clip_minutes (dwell_minutes a b))%Q) ∧
  length rows = pred (length s) ∧
  (∀ r, r ∈ dwell_frame d → (0 <= dwell_mins r <= 240)%Q) ∧
  (clip 0 240 500 == 240)%Q ∧ (clip 0 240 (-5) == 0)%Q.
Proof.
  intros s rows. pose proof (dwell_frame_user u d) as Hrows.
  fold s rows in Hrows. split; [|split; [|split]].
  - intros i a b Ha Hb.
    assert ((Some <$> rows) !! i = Some (dwell_of a (Some b))) as Hi.
    { rewrite Hrows, list_lookup_fmap.
      by rewrite (proj2 (consecutive_pairs_lookup s i a b)). }
    rewrite list_lookup_fmap in Hi.
    destruct (rows !! i) as [r|]; [|done]. injection Hi as ->.
    eexists. split; [done|]. simpl. split; [done|]. split; [done|].
    apply clip_clip_minutes.
  - by rewrite <-(length_fmap Some), Hrows, length_fmap, consecutive_pairs_length.
  - intros r Hr.
    assert (Some r ∈ Some <$> filter (λ r', row_user (dr_row r') = row_user (dr_row r))
                                (dwell_frame d)) as Hin.
    { apply list_elem_of_fmap_2, list_elem_of_filter. done. }
    rewrite dwell_frame_user in Hin.
    apply list_elem_of_fmap in Hin as ([a b] & [= ->] & _). simpl.
    unfold clip. split.
    + apply Q.min_glb; [|done]. apply Q.le_max_r.
    + apply Q.le_min_r.
  - split; reflexivity.
Qed.

(** ** RoomProfiler: the rooms of the result *)

(** A room has a dwell row exactly when one of its events has a same-user
    successor. *)
Lemma dwell_frame_room d room :
  room ∈ dr_room <$> dwell_frame d ↔
  ∃ u i a, per_user_sequence u d !! i = Some a ∧ room_id (ev a) = room
           ∧ is_Some (per_user_sequence u d !! S i).
Proof.
  rewrite list_elem_of_fmap. split.
  - intros (r & -> & Hr).
    assert (Some r ∈ Some <$> filter (λ r', row_user (dr_row r') = row_user (dr_row r))
                                (dwell_frame d)) as Hin.
    { apply list_elem_of_fmap_2, list_elem_of_filter. done. }
    rewrite dwell_frame_user in Hin.
    apply list_elem_of_fmap in Hin as ([a b] & [= ->] & Hp).
    apply list_elem_of_lookup in Hp as [i Hi].
    apply consecutive_pairs_lookup in Hi as [Ha Hb].
    exists (row_user a), i, a. simpl in *. eauto.
  - intros (u & i & a & Ha & <- & [b Hb]).
    pose proof (proj2 (consecutive_pairs_lookup _ i a b) (conj Ha Hb)) as Hp.
    assert (dwell_of a (Some b)
            ∈ Some <$> filter (λ r, row_user (dr_row r) = u) (dwell_frame d))
      as Hin.
    { rewrite dwell_frame_user. apply list_elem_of_fmap.
      exists (a, b). split; [done|]. by eapply list_elem_of_lookup_2. }
    apply list_elem_of_fmap in Hin as (r & Hr & Hin).
    apply list_elem_of_filter in Hin as [_ Hin].
    exists r. split; [|done]. by injection Hr as <-.
Qed.

Section profiler.
Context `{Library}.

Lemma room_agg_rooms dh :
  ar_room_id <$> room_agg dh = group_keys ((λ r, dr_room (hr_row r)) <$> dh).
Proof.
  unfold room_agg. rewrite <-list_fmap_compose.
  rewrite (list_fmap_ext _ id (group_keys _)) by done.
  apply list_fmap_id.
Qed.

Lemma room_typing_rooms df d out :
  with_epoch df = Ok d → room_typing df = Ok out →
  rp_room_id <$> out ≡ₚ group_keys (dr_room <$> dwell_frame d).
Proof.
  intros Hd. unfold room_typing. rewrite Hd. simpl.
  destruct (to_datetime_hour _) as [hours|]; [|done]. simpl.
  intros [= <-]. rewrite sort_values_desc_perm, <-list_fmap_compose.
  rewrite (list_fmap_ext _ ar_room_id (room_agg _)) by done.
  rewrite room_agg_rooms, fmap_imap.
  by rewrite (imap_ext _ (const dr_room) (dwell_frame d)), imap_const by done.
Qed.

Lemma room_typing_total df d hours :
  with_epoch df = Ok d →
  to_datetime_hour ((λ r, timestamp (ev (dr_row r))) <$> dwell_frame d)
  = Some hours →
  ∃ out, room_typing df = Ok out.
Proof.
  intros Hd Hh. unfold room_typing. rewrite Hd. simpl. rewrite Hh. simpl.
  eauto.
Qed.

(** C8.  Whenever RoomProfiler returns, its result has no two rows for
    one room, and a room has a row exactly when one of its events has a
    same-user successor in the per-user time-sorted sequence; so a room all
    of whose events are the last event of their user has no row.  (It
    returns whenever the timestamps parse and the hour derivation does not
    raise.) *)
Theorem rooms_without_successor_excluded df d out :
  with_epoch df = Ok d → room_typing df = Ok out →
  NoDup (rp_room_id <$> out) ∧
  (∀ room, room ∈ rp_room_id <$> out ↔
     ∃ u i a, per_user_sequence u d !! i = Some a ∧ room_id (ev a) = room
              ∧ is_Some (per_user_sequence u d !! S i)) ∧
  (∀ room,
     (∀ u i a, per_user_sequence u d !! i = Some a → room_id (ev a) = room →
               per_user_sequence u d !! S i = None) →
     room ∉ rp_room_id <$> out).
Proof.
  intros Hd Hout. pose proof (room_typing_rooms df d out Hd Hout) as Hrooms.
  assert (∀ room, room ∈ rp_room_id <$> out ↔
     ∃ u i a, per_user_sequence u d !! i = Some a ∧ room_id (ev a) = room
              ∧ is_Some (per_user_sequence u d !! S i)) as Hiff.
  { intros room. by rewrite Hrooms, group_keys_elem_of, dwell_frame_room. }
  split; [rewrite Hrooms; apply group_keys_NoDup|].
  split; [done|].
  intros room Hlast (u & i & a & Ha & Hr & [b Hb])%Hiff.
  rewrite (Hlast u i a Ha Hr) in Hb. done.
Qed.

End profiler.

(** ** RoomProfiler: labeling *)

Lemma Zgtb_decide x y : (x >? y) = bool_decide (y < x).
Proof.
  rewrite Z.gtb_ltb. case_bool_decide; [by apply Z.ltb_lt|by apply Z.ltb_ge; lia].
Qed.

Lemma Zeqb_decide x y : (x =? y) = bool_decide (x = y).
Proof.
  case_bool_decide; [by apply Z.eqb_eq|by apply Z.eqb_neq].
Qed.

Lemma Qle_bool_decide x y : Qle_bool x y = bool_decide (x <= y)%Q.
Proof.
  case_bool_decide as Hle.
  - by apply Qle_bool_iff.
  - apply not_true_is_false. by rewrite Qle_bool_iff.
Qed.

Lemma Qltb_decide x y : Qltb x y = bool_decide (x < y)%Q.
Proof.
  unfold Qltb. rewrite Qle_bool_decide.
  do 2 case_bool_decide; try done.
  - exfalso. by eapply Qlt_not_le.
  - exfalso. by destruct (Qlt_le_dec x y).
Qed.

Ltac rule_condition :=
  rewrite ?Zgtb_decide, ?Zeqb_decide, ?Qle_bool_decide, ?Qltb_decide,
    <-?bool_decide_and;
  apply bool_decide_ext; tauto.

Lemma label_row_last_match r :
  label_row r = last_match_wins labeling_rules "Other/Office" r.
Proof.
  unfold label_row, last_match_wins, labeling_rules. cbv zeta.
  change (sum_hours r [7; 8; 9]%nat) with (morning r).
  change (sum_hours r [11; 12; 13]%nat) with (lunch r).
  change (sum_hours r [16; 17; 18; 19]%nat) with (evening r).
  change (sum_hours r [0; 1; 2; 3; 4; 5; 21; 22; 23]%nat) with (night r).
  set (med := ar_median_dwell_mins r).
  rewrite !filter_cons, filter_nil. cbn [fst snd].
  replace ((morning r >? lunch r) && Qltb med 15)
    with (bool_decide (lunch r < morning r ∧ (med < 15)%Q))
    by (symmetry; rule_condition).
  replace (Qle_bool 25 med && Qle_bool med 150 && (lunch r >? morning r)
           && (lunch r >? evening r))
    with (bool_decide ((25 <= med)%Q ∧ (med <= 150)%Q
                       ∧ morning r < lunch r ∧ evening r < lunch r))
    by (symmetry; rule_condition).
  replace (Qltb med 10 && (morning r + lunch r + evening r >? 50)
           && (night r =? 0))
    with (bool_decide ((med < 10)%Q ∧ 50 < morning r + lunch r + evening r
                       ∧ night r = 0))
    by (symmetry; rule_condition).
  replace (Qle_bool 40 med && Qle_bool med 90
           && (lunch r >? morning r + evening r) && (lunch r >? 20))
    with (bool_decide ((40 <= med)%Q ∧ (med <= 90)%Q
                       ∧ morning r + evening r < lunch r ∧ 20 < lunch r))
    by (symmetry; rule_condition).
  replace ((night r >? morning r + lunch r + evening r) && Qle_bool 60 med)
    with (bool_decide (morning r + lunch r + evening r < night r
                       ∧ (60 <= med)%Q))
    by (symmetry; rule_condition).
  do 5 (destruct (bool_decide _); simpl); reflexivity.
Qed.

Lemma length_filter_or {A} (P Q : A → Prop)
    `{!∀ x, Decision (P x), !∀ x, Decision (Q x)} (l : list A) :
  (∀ x, P x → Q x → False) →
  (length (filter P l) + length (filter Q l))%nat
  = length (filter (λ x, P x ∨ Q x) l).
Proof.
  intros Hdisj. induction l as [|x l IH]; [done|].
  rewrite !filter_cons.
  destruct (decide (P x)) as [HP|HP], (decide (Q x)) as [HQ|HQ];
    try (by destruct (Hdisj x)).
  - rewrite decide_True by tauto. simpl. lia.
  - rewrite decide_True by tauto. simpl. lia.
  - rewrite decide_False by tauto. done.
Qed.

(** The counts of the hours of a window add up to the number of visits in
    the window. *)
Lemma hour_count_window dh room hs :
  NoDup hs →
  foldr Z.add 0 (hour_count dh room <$> hs)
  = Z.of_nat (length (filter (λ x, dr_room (hr_row x) = room
                                   ∧ hour_in hs (hour x)) dh)).
Proof.
  induction 1 as [|h hs Hh _ IH].
  { simpl. rewrite (list_filter_iff _ (λ _, False)); [clear; by induction dh|].
    intros x. split; [|done]. intros [_ Hx].
    destruct (hour x); simpl in Hx; [by apply elem_of_nil in Hx|done]. }
  rewrite fmap_cons. cbn [foldr]. rewrite IH. unfold hour_count.
  rewrite <-Nat2Z.inj_add, length_filter_or.
  - do 2 f_equal. apply list_filter_iff. intros x.
    destruct (hour x) as [h'|]; simpl.
    + rewrite elem_of_cons. split.
      * intros [[Hr [= ->]]|[Hr Hin]]; (split; [done|]); [by left|by right].
      * intros [Hr [->|Hin]]; [left|right]; done.
    + split; [intros [[_ [=]]|[_ []]]|intros [_ []]].
  - intros x [_ Hx] [_ Hin]. rewrite Hx in Hin. simpl in Hin. done.
Qed.

Lemma traffic_hour_count dh room hs hours24 :
  hours24 = hour_count dh room <$> seq 0 24 →
  Forall (λ h, (h < 24)%nat) hs →
  foldr Z.add 0 ((λ h, default 0 (hours24 !! h)) <$> hs)
  = foldr Z.add 0 (hour_count dh room <$> hs).
Proof.
  intros -> Hall. f_equal. apply Forall_fmap_ext.
  eapply Forall_impl; [exact Hall|]. intros h Hh. cbv beta.
  rewrite list_lookup_fmap, lookup_seq_lt by done. done.
Qed.

Lemma length_filter_none {A} (P : A → Prop) `{!∀ x, Decision (P x)} (l : list A) :
  (∀ x, x ∈ l → ¬ P x) → length (filter P l) = 0%nat.
Proof.
  induction l as [|x l IH]; intros Hno; [done|].
  rewrite filter_cons, decide_False by (apply Hno; left).
  apply IH. intros y Hy. apply Hno. by right.
Qed.

(** The rows of the frame after [d["hour"] = ...], against the visits. *)
Lemma visits_hour_rows (P : DwellRow → Prop) hs
    `{!∀ x : HourRow, Decision (P (hr_row x) ∧ hour_in hs (hour x)),
      !∀ v : DwellRow * option nat, Decision (P v.1 ∧ hour_in hs v.2)}
    (dw : list DwellRow) (hours : list (option nat)) :
  length (filter (λ x, P (hr_row x) ∧ hour_in hs (hour x))
            (imap (λ i r, {| hr_row := r; hour := mjoin (hours !! i) |}) dw))
  = length (filter (λ v, P v.1 ∧ hour_in hs v.2) (zip dw hours)).
Proof.
  revert hours. induction dw as [|r dw IH]; intros hours; [done|].
  destruct hours as [|o hours].
  - rewrite length_filter_none; [done|].
    intros x (i & y & -> & _)%elem_of_lookup_imap [_ Hx]. done.
  - rewrite imap_cons. simpl zip. rewrite !filter_cons.
    rewrite (imap_ext _ (λ i r, {| hr_row := r; hour := mjoin (hours !! i) |}))
      by done.
    change (mjoin ((o :: hours) !! 0%nat)) with o.
    destruct (decide (P (hr_row {| hr_row := r; hour := o |})
                      ∧ hour_in hs (hour {| hr_row := r; hour := o |})))
      as [Hr|Hr], (decide (P (r, o).1 ∧ hour_in hs (r, o).2)) as [Hv|Hv];
      simpl in *; try tauto; by rewrite IH.
Qed.

Lemma room_traffic_agg d hours room hs :
  NoDup hs → Forall (λ h, (h < 24)%nat) hs →
  let dh := imap (λ i r, {| hr_row := r; hour := mjoin (hours !! i) |})
              (dwell_frame d) in
  foldr Z.add 0 ((λ h, default 0 ((hour_count dh room <$> seq 0 24) !! h)) <$> hs)
  = room_traffic (visits_of d hours) room hs.
Proof.
  intros Hnd Hall dh.
  rewrite (traffic_hour_count dh room hs _ eq_refl Hall).
  rewrite hour_count_window by done. unfold room_traffic, visits_of.
  f_equal. unfold dh. apply (visits_hour_rows (λ r, dr_room r = room)).
Qed.

Lemma last_match_wins_inputs r r' :
  ar_median_dwell_mins r = ar_median_dwell_mins r' →
  morning r = morning r' → lunch r = lunch r' →
  evening r = evening r' → night r = night r' →
  last_match_wins labeling_rules "Other/Office" r
  = last_match_wins labeling_rules "Other/Office" r'.
Proof.
  intros Hmed Hm Hl He Hn. unfold last_match_wins, labeling_rules.
  rewrite !filter_cons, !filter_nil. cbn [fst snd].
  rewrite Hmed, Hm, Hl, He, Hn. done.
Qed.

Lemma label_row_examples :
  (∀ r, (ar_median_dwell_mins r == 45)%Q →
        lunch r = 10 → morning r = 0 → evening r = 0 →
        label_row r = "Conference/Meeting") ∧
  (∀ r, (ar_median_dwell_mins r == 45)%Q →
        lunch r = 30 → morning r = 0 → evening r = 0 →
        (labeling_rules !! 1%nat) ≫= (λ rule, Some (rule.1 r)) = Some true
        ∧ (labeling_rules !! 3%nat) ≫= (λ rule, Some (rule.1 r)) = Some true
        ∧ label_row r = "Cafeteria").
Proof.
  split.
  - intros r Hmed Hl Hm He. unfold label_row. cbv zeta.
    change (sum_hours r [7; 8; 9]%nat) with (morning r).
    change (sum_hours r [11; 12; 13]%nat) with (lunch r).
    change (sum_hours r [16; 17; 18; 19]%nat) with (evening r).
    rewrite Hl, Hm, He. unfold Qltb. rewrite !Hmed.
    replace (Qle_bool 60 45) with false by reflexivity.
    rewrite andb_false_r. reflexivity.
  - intros r Hmed Hl Hm He. split; [|split].
    + simpl. f_equal. apply bool_decide_eq_true. rewrite Hmed, Hl, Hm, He.
      repeat split; (done || lia).
    + simpl. f_equal. apply bool_decide_eq_true. rewrite Hmed, Hl, Hm, He.
      repeat split; (done || lia).
    + unfold label_row. cbv zeta.
      change (sum_hours r [7; 8; 9]%nat) with (morning r).
      change (sum_hours r [11; 12; 13]%nat) with (lunch r).
      change (sum_hours r [16; 17; 18; 19]%nat) with (evening r).
      rewrite Hl, Hm, He. unfold Qltb. rewrite !Hmed.
      replace (Qle_bool 60 45) with false by reflexivity.
      rewrite andb_false_r. reflexivity.
Qed.

Lemma filter_fmap_list {A B} (f : A → B) (P : B → Prop)
    `{!∀ y, Decision (P y)} (l : list A) :
  filter P (f <$> l) = f <$> filter (λ x, P (f x)) l.
Proof.
  induction l as [|x l IH]; [done|].
  rewrite fmap_cons, !filter_cons. destruct (decide (P (f x))); by rewrite IH.
Qed.

Lemma hour_rows_dwell (f : nat → option nat) (dw : list DwellRow) :
  hr_row <$> imap (λ i r, {| hr_row := r; hour := f i |}) dw = dw.
Proof.
  revert f. induction dw as [|r dw IH]; intros f; [done|].
  rewrite imap_cons, fmap_cons. f_equal. apply (IH (f ∘ S)).
Qed.

Section classifier.
Context `{Library}.

(** The row [room_agg] makes of a room, against the visits of the room. *)
Lemma room_agg_row d hours r :
  r ∈ room_agg (imap (λ i x, {| hr_row := x; hour := mjoin (hours !! i) |})
                  (dwell_frame d)) →
  ar_visits r = Z.of_nat (length (room_dwells (dwell_frame d) (ar_room_id r)))
  ∧ ar_median_dwell_mins r = median (room_dwells (dwell_frame d) (ar_room_id r))
  ∧ rule_inputs (visits_of d hours) (ar_room_id r) (ar_median_dwell_mins r) r.
Proof.
  set (dh := imap _ _). unfold room_agg.
  intros (room & -> & _)%list_elem_of_fmap. cbn [ar_room_id ar_visits ar_median_dwell_mins].
  assert (filter (λ x, dr_room x = room) (dwell_frame d)
          = hr_row <$> filter (λ x, dr_room (hr_row x) = room) dh) as Hrows.
  { rewrite <-(hour_rows_dwell (λ i, mjoin (hours !! i)) (dwell_frame d)) at 1.
    by rewrite filter_fmap_list. }
  unfold room_dwells. rewrite Hrows, <-list_fmap_compose, !length_fmap.
  split; [done|]. split; [done|].
  split; [done|].
  repeat split; apply (room_traffic_agg d hours room);
    solve [refine (bool_decide_unpack _ _); vm_compute; exact I].
Qed.

(** C4.  RoomProfiler gives every room of its result the label of the last
    of the five rules, taken in the order of the specification, whose
    predicate holds for the median dwell of the room's visits and for its
    traffic, the number of its visits in the hours of a window;
    "Other/Office" when none holds.  The row's visits and median are those
    of the room's visits.  A room with lunch traffic 10, no morning and no
    evening traffic and a median dwell of 45 minutes is labelled
    "Conference/Meeting"; with lunch traffic 30 the second and the fourth
    rule both hold and the label is that of the fourth, "Cafeteria". *)
Theorem label_row_last_match_wins df d hours out :
  with_epoch df = Ok d →
  to_datetime_hour ((λ r, timestamp (ev (dr_row r))) <$> dwell_frame d)
  = Some hours →
  room_typing df = Ok out →
  let vs := visits_of d hours in
  (snd <$> labeling_rules
   = ["Lobby/Entry"; "Conference/Meeting"; "Hallway/Break"; "Cafeteria";
      "Security/Overnight/Server"]) ∧
  (∀ r, label_row r = last_match_wins labeling_rules "Other/Office" r) ∧
  (∀ p, p ∈ out →
     visits p = Z.of_nat (length (room_dwells (dwell_frame d) (rp_room_id p)))
     ∧ median_dwell_mins p = median (room_dwells (dwell_frame d) (rp_room_id p))
     ∧ (∃ r, rule_inputs vs (rp_room_id p) (median_dwell_mins p) r)
     ∧ (∀ r, rule_inputs vs (rp_room_id p) (median_dwell_mins p) r →
             label p = last_match_wins labeling_rules "Other/Office" r)) ∧
  (∀ p, p ∈ out → (median_dwell_mins p == 45)%Q →
        room_traffic vs (rp_room_id p) lunch_hours = 10 →
        room_traffic vs (rp_room_id p) morning_hours = 0 →
        room_traffic vs (rp_room_id p) evening_hours = 0 →
        label p = "Conference/Meeting") ∧
  (∀ p, p ∈ out → (median_dwell_mins p == 45)%Q →
        room_traffic vs (rp_room_id p) lunch_hours = 30 →
        room_traffic vs (rp_room_id p) morning_hours = 0 →
        room_traffic vs (rp_room_id p) evening_hours = 0 →
        label p = "Cafeteria") ∧
  (∀ r, (ar_median_dwell_mins r == 45)%Q →
        lunch r = 10 → morning r = 0 → evening r = 0 →
        label_row r = "Conference/Meeting") ∧
  (∀ r, (ar_median_dwell_mins r == 45)%Q →
        lunch r = 30 → morning r = 0 → evening r = 0 →
        (labeling_rules !! 1%nat) ≫= (λ rule, Some (rule.1 r)) = Some true
        ∧ (labeling_rules !! 3%nat) ≫= (λ rule, Some (rule.1 r)) = Some true
        ∧ label_row r = "Cafeteria").
Proof.
  intros Hd Hh Hout vs.
  assert (∀ p, p ∈ out → ∃ r,
            label p = label_row r
            ∧ visits p = Z.of_nat (length (room_dwells (dwell_frame d) (rp_room_id p)))
            ∧ median_dwell_mins p = median (room_dwells (dwell_frame d) (rp_room_id p))
            ∧ rule_inputs vs (rp_room_id p) (median_dwell_mins p) r) as Hrow.
  { unfold room_typing in Hout. rewrite Hd in Hout. simpl in Hout.
    rewrite Hh in Hout. simpl in Hout. injection Hout as <-.
    intros p Hp%sort_values_desc_elem_of.
    apply list_elem_of_fmap in Hp as (r & -> & Hr).
    apply room_agg_row in Hr as (Hv & Hm & Hin).
    exists r. cbn [label visits median_dwell_mins rp_room_id]. done. }
  destruct label_row_examples as [Hconf Hcafe].
  split; [done|]. split; [apply label_row_last_match|].
  split; [|split; [|split; [|split]]].
  - intros p (r0 & Hl & Hv & Hm & Hin)%Hrow.
    split; [done|]. split; [done|]. split; [by exists r0|].
    intros r (Hmed & Hmo & Hlu & Hev & Hni).
    destruct Hin as (Hmed0 & Hmo0 & Hlu0 & Hev0 & Hni0).
    rewrite Hl, label_row_last_match.
    apply last_match_wins_inputs; congruence.
  - intros p (r0 & Hl & _ & _ & Hmed0 & Hmo0 & Hlu0 & Hev0 & _)%Hrow Hmed Hlu Hmo Hev.
    rewrite Hl. apply Hconf; [by rewrite Hmed0|congruence..].
  - intros p (r0 & Hl & _ & _ & Hmed0 & Hmo0 & Hlu0 & Hev0 & _)%Hrow Hmed Hlu Hmo Hev.
    rewrite Hl. apply Hcafe; [by rewrite Hmed0|congruence..].
  - exact Hconf.
  - exact Hcafe.
Qed.

End classifier.

(** ** Running the analyses again *)

Lemma run_bind_ok {A B} (m : Run A) (k : A → Run B) h a h' :
  m h = Some (Ok a, h') → (m ≫= k) h = k a h'.
Proof. intros Hm. unfold mbind, run_bind. by rewrite Hm. Qed.

Lemma run_bind_err {A B} (m : Run A) (k : A → Run B) h e h' :
  m h = Some (Err e, h') → (m ≫= k) h = Some (Err e, h').
Proof. intros Hm. unfold mbind, run_bind. by rewrite Hm. Qed.

(** The heap as what was there, [h], and what the run has made, [k]. *)
Lemma read_old {A} (kind : object → option A) (h k : list object) l o a :
  h !! l = Some o → kind o = Some a →
  read kind l (h ++ k) = Some (Ok a, h ++ k).
Proof.
  intros Hl Ha. unfold read. by rewrite (lookup_app_l_Some _ _ _ _ Hl); simpl; rewrite Ha.
Qed.

Lemma read_new {A} (kind : object → option A) (h k : list object) j o a :
  k !! j = Some o → kind o = Some a →
  read kind (length h + j)%nat (h ++ k) = Some (Ok a, h ++ k).
Proof.
  intros Hj Ha. unfold read. rewrite lookup_app_r by lia.
  replace (length h + j - length h)%nat with j by lia.
  rewrite Hj. simpl. by rewrite Ha.
Qed.

Lemma set_new (h k : list object) j o :
  (j < length k)%nat →
  set_object (length h + j)%nat o (h ++ k) = Some (Ok (), h ++ <[j := o]> k).
Proof.
  intros Hj. unfold set_object.
  rewrite decide_True by (rewrite length_app; lia).
  by rewrite insert_app_r.
Qed.

Lemma new_new (h k : list object) o :
  new_object o (h ++ k) = Some (Ok (length h + length k)%nat, h ++ (k ++ [o])).
Proof. unfold new_object. by rewrite length_app, <-(assoc_L (++)). Qed.

Ltac run_step :=
  first
    [ erewrite run_bind_ok by
        first [ apply new_new
              | apply set_new; simpl; lia
              | eapply read_new; [first [eassumption|reflexivity]|reflexivity]
              | eapply read_old; [eassumption|reflexivity] ]
    | erewrite run_bind_ok by reflexivity ];
  cbv beta; cbn [length app list_insert insert].

Lemma finding_of_masked (rows : list TravelRow) :
  omap finding_of (filter (λ r, travel_mask r = true) rows)
  = omap finding_of rows.
Proof.
  induction rows as [|r rows IH]; [done|].
  rewrite filter_cons. destruct (decide (travel_mask r = true)) as [Hm|Hm].
  - cbn [omap list_omap]. by rewrite IH.
  - assert (finding_of r = None) as Hr.
    { unfold finding_of. by destruct (travel_mask r). }
    cbn [omap list_omap]. by rewrite Hr, IH.
Qed.

Lemma dwell_of_nexts (rows : list Row) (nexts : list (option Row)) :
  omap (λ r, dwell_of r.1 r.2) (filter (λ r, is_Some r.2) (zip rows nexts))
  = omap id (zip_with dwell_of rows nexts).
Proof.
  revert nexts. induction rows as [|r rows IH]; intros [|n nexts]; try done.
  simpl zip. simpl zip_with. rewrite filter_cons.
  destruct n as [n|].
  - rewrite decide_True by (by eexists). cbn [omap list_omap fst snd].
    by rewrite IH.
  - rewrite decide_False by (by intros [? ?]). cbn [omap list_omap].
    by rewrite IH.
Qed.

Section rerun.
Context `{Library}.

Lemma copy_old (h k : list object) df events :
  h !! df = Some (Events events) →
  copy df (h ++ k)
  = Some (Ok (length h + length k)%nat, h ++ (k ++ [Events events])).
Proof. intros Hdf. unfold copy. run_step. apply new_new. Qed.

Lemma set_epoch_new (h k : list object) j events :
  k !! j = Some (Events events) →
  set_epoch (length h + j)%nat (h ++ k)
  = match with_epoch events with
    | Ok rows => Some (Ok (), h ++ <[j := Epochs rows]> k)
    | Err e => Some (Err e, h ++ k)
    end.
Proof.
  intros Hj. unfold set_epoch. run_step.
  destruct (with_epoch events) as [rows|e]; simpl.
  - run_step. apply set_new. by eapply lookup_lt_Some.
  - by erewrite run_bind_err.
Qed.

Lemma sorted_new (h k : list object) j rows :
  k !! j = Some (Epochs rows) →
  sorted (length h + j)%nat (h ++ k)
  = Some (Ok (length h + length k)%nat, h ++ (k ++ [Epochs (sort_values rows)])).
Proof. intros Hj. unfold sorted. run_step. apply new_new. Qed.

Lemma run_travel_spec (h : list object) df events :
  h !! df = Some (Events events) →
  ∃ k, run_travel df h = Some (detect_impossible_travel events, h ++ k).
Proof.
  intros Hdf. replace (run_travel df h) with (run_travel df (h ++ []))
    by (by rewrite app_nil_r).
  unfold run_travel, detect_impossible_travel.
  erewrite run_bind_ok by (by apply copy_old).
  cbv beta; cbn [length app Nat.add].
  pose proof (set_epoch_new h [Events events] 0 events eq_refl) as Hset.
  destruct (with_epoch events) as [rows|e].
  - erewrite run_bind_ok by exact Hset.
    cbv beta; cbn [insert list_insert].
    erewrite run_bind_ok by (by apply sorted_new).
    cbv beta; cbn [length app].
    do 8 run_step.
    eexists. erewrite read_new by reflexivity.
    simpl. by rewrite finding_of_masked.
  - eexists. by erewrite run_bind_err by exact Hset.
Qed.

Lemma run_curious_spec (h : list object) df tbl events allowed :
  h !! df = Some (Events events) → h !! tbl = Some (Table allowed) →
  ∃ k, run_curious df tbl h
       = Some (Ok (detect_curious_users events allowed), h ++ k).
Proof.
  intros Hdf Htbl. replace (run_curious df tbl h)
    with (run_curious df tbl (h ++ [])) by (by rewrite app_nil_r).
  unfold run_curious, detect_curious_users.
  erewrite run_bind_ok by (by apply copy_old).
  cbv beta; cbn [length app Nat.add].
  do 9 run_step.
  eexists. erewrite read_new by reflexivity. done.
Qed.

Lemma run_rooms_spec (h : list object) df events :
  h !! df = Some (Events events) →
  ∃ k, run_rooms df h = Some (room_typing events, h ++ k).
Proof.
  intros Hdf. replace (run_rooms df h) with (run_rooms df (h ++ []))
    by (by rewrite app_nil_r).
  unfold run_rooms, room_typing.
  erewrite run_bind_ok by (by apply copy_old).
  cbv beta; cbn [length app Nat.add].
  pose proof (set_epoch_new h [Events events] 0 events eq_refl) as Hset.
  destruct (with_epoch events) as [rows|e].
  - erewrite run_bind_ok by exact Hset.
    cbv beta; cbn [insert list_insert].
    erewrite run_bind_ok by (by apply sorted_new).
    cbv beta; cbn [length app].
    do 7 run_step.
    rewrite dwell_of_nexts. fold (dwell_frame rows).
    cbn [mbind result_bind].
    destruct (to_datetime_hour _) as [hours|]; cbn [from_option lift_result].
    + do 10 run_step.
      eexists. erewrite read_new by reflexivity.
      simpl. do 3 f_equal. by rewrite <-list_fmap_compose.
    + eexists. by erewrite run_bind_err by reflexivity.
  - eexists. by erewrite run_bind_err by exact Hset.
Qed.

Lemma run_all_spec (h : list object) df tbl events allowed :
  h !! df = Some (Events events) → h !! tbl = Some (Table allowed) →
  ∃ k, run_all df tbl h = Some (outputs_of events allowed, h ++ k).
Proof.
  intros Hdf Htbl. unfold run_all, outputs_of.
  destruct (run_travel_spec h df events Hdf) as [k1 Hk1].
  destruct (detect_impossible_travel events) as [imp|e]; cbn [mbind result_bind];
    [|exists k1; by erewrite run_bind_err].
  erewrite run_bind_ok by exact Hk1.
  destruct (run_curious_spec (h ++ k1) df tbl events allowed) as [k2 Hk2];
    [by apply lookup_app_l_Some..|].
  erewrite run_bind_ok by exact Hk2.
  destruct (run_rooms_spec ((h ++ k1) ++ k2) df events) as [k3 Hk3];
    [by do 2 apply lookup_app_l_Some|].
  exists (k1 ++ k2 ++ k3). rewrite !(assoc_L (++)).
  destruct (room_typing events) as [rooms|e]; cbn [mbind result_bind];
    [|by erewrite run_bind_err].
  by erewrite run_bind_ok by exact Hk3.
Qed.

Lemma rerun_identical_intro {A} (run : Run A) (P : list object → Prop) r h :
  P h → (∀ h k, P h → P (h ++ k)) →
  (∀ h, P h → ∃ k, run h = Some (r, h ++ k)) →
  rerun_identical run h r.
Proof.
  intros Hh Hmono Hrun. destruct (Hrun h Hh) as [k Hk].
  destruct (Hrun (h ++ k) (Hmono h k Hh)) as [k' Hk']. by exists k, k'.
Qed.

(** A column assignment writes the object itself: on the frame of [main],
    and not on a copy of it, it would put another frame in its place. *)
Lemma set_epoch_in_place (h : list object) d events rows :
  h !! d = Some (Events events) → with_epoch events = Ok rows →
  set_epoch d h = Some (Ok (), <[d := Epochs rows]> h).
Proof.
  intros Hd Hrows. unfold set_epoch.
  erewrite run_bind_ok; [|unfold read; by rewrite Hd].
  rewrite Hrows. cbn [lift_result]. erewrite run_bind_ok by reflexivity.
  unfold set_object. rewrite decide_True by (by eapply lookup_lt_Some). done.
Qed.

(** C9.  Each analysis works on a copy of the frame it is handed: it gives
    the result of the analysis on the rows of that frame and leaves every
    object that was in the heap, the frame and the permission table among
    them, as it found it.  Running it again on the heap it leaves, as on
    the same input collection, therefore gives the same result, with the
    same rows in the same order; and so does running the three of them in
    sequence.  The outputs depend on the rows of the frame and on the
    table only, not on the heap they are found in. *)
Theorem analyses_rerun_identical (h : list object) df tbl events allowed :
  h !! df = Some (Events events) → h !! tbl = Some (Table allowed) →
  rerun_identical (run_travel df) h (detect_impossible_travel events) ∧
  rerun_identical (run_curious df tbl) h
    (Ok (detect_curious_users events allowed)) ∧
  rerun_identical (run_rooms df) h (room_typing events) ∧
  rerun_identical (run_all df tbl) h (outputs_of events allowed) ∧
  (∀ (h' : list object) df' tbl',
     h' !! df' = Some (Events events) → h' !! tbl' = Some (Table allowed) →
     ∃ k, run_all df' tbl' h' = Some (outputs_of events allowed, h' ++ k)).
Proof.
  intros Hdf Htbl.
  set (P := λ h : list object,
         h !! df = Some (Events events) ∧ h !! tbl = Some (Table allowed)).
  assert (P h) as Hh by done.
  assert (∀ h k, P h → P (h ++ k)) as Hmono.
  { intros h' k [? ?]. split; by apply lookup_app_l_Some. }
  split; [|split; [|split; [|split]]].
  - apply (rerun_identical_intro _ P); [done..|].
    intros h' [? ?]. by apply run_travel_spec.
  - apply (rerun_identical_intro _ P); [done..|].
    intros h' [? ?]. by apply run_curious_spec.
  - apply (rerun_identical_intro _ P); [done..|].
    intros h' [? ?]. by apply run_rooms_spec.
  - apply (rerun_identical_intro _ P); [done..|].
    intros h' [? ?]. by apply run_all_spec.
  - intros h' df' tbl'. apply run_all_spec.
Qed.

End rerun.

(** ** The reference library *)

Lemma insertion_argsort_desc_perm vals :
  insertion_argsort_desc vals ≡ₚ seq 0 (length vals).
Proof.
  unfold insertion_argsort_desc. rewrite stable_sort_perm.
  apply reflexive_eq, fst_zip. by rewrite length_seq.
Qed.

Lemma omap_lookup_pairs (vals : list Z) (l : list (nat * Z)) :
  Forall (λ p, vals !! p.1 = Some p.2) l →
  omap (λ i, vals !! i) (l.*1) = l.*2.
Proof.
  induction 1 as [|[i v] l Hp _ IH]; [done|].
  rewrite !fmap_cons, omap_cons_option_list, IH. simpl in *. by rewrite Hp.
Qed.

Lemma insertion_argsort_desc_sorted vals :
  StronglySorted (flip Z.le)
    (omap (λ i, vals !! i) (insertion_argsort_desc vals)).
Proof.
  unfold insertion_argsort_desc. rewrite omap_lookup_pairs.
  - apply (StronglySorted_fmap snd value_ge); [done|].
    apply stable_sort_sorted.
    + intros a b c. unfold value_ge. lia.
    + intros a b. unfold value_ge. lia.
  - apply Forall_forall. intros [i v] Hin.
    apply stable_sort_elem_of, list_elem_of_lookup in Hin as [j Hj].
    apply lookup_zip_with_Some in Hj as (i' & v' & [= -> ->] & Hi & Hv).
    apply lookup_seq in Hi as [-> _]. done.
Qed.

Definition reference_library : Library :=
  {| isoparse := plain_isoparse;
     to_datetime_hour := plain_hours;
     argsort_desc := insertion_argsort_desc;
     argsort_desc_perm := insertion_argsort_desc_perm;
     argsort_desc_sorted := insertion_argsort_desc_sorted |}.

(** ** The analyses on the sample logs *)

Example travel_log_epochs :
  with_epoch (H := reference_library) travel_log = Ok travel_rows.
Proof. vm_compute. reflexivity. Qed.

Example travel_log_findings :
  detect_impossible_travel (H := reference_library) travel_log
  = Ok [ {| tf_user_id := "U1"; first_location := "A"; second_location := "B";
            first_ts := 1709251200; second_ts := 1709254800;
            delta_secs := 3600 |};
         {| tf_user_id := "U1"; first_location := "B"; second_location := "A";
            first_ts := 1709283600; second_ts := 1709297999;
            delta_secs := 14399 |} ].
Proof. vm_compute. reflexivity. Qed.

Example travel_log_rooms :
  (λ p, (rp_room_id p, visits p, label p))
  <$> default [] (match room_typing (H := reference_library) travel_log with
                  | Ok out => Some out
                  | Err _ => None
                  end)
  = [ ("A", 2, "Conference/Meeting"); ("B", 2, "Other/Office") ].
Proof. vm_compute. reflexivity. Qed.

Example conference_log_rooms :
  (λ p, (rp_room_id p, visits p, Qred (median_dwell_mins p), label p))
  <$> default [] (match room_typing (H := reference_library) conference_log with
                  | Ok out => Some out
                  | Err _ => None
                  end)
  = [ ("R1", 10, 45%Q, "Conference/Meeting") ].
Proof. vm_compute. reflexivity. Qed.

Example tie_rows_sorted :
  (λ r, location_id (ev r)) <$> sort_values tie_rows = ["Z"; "X"; "Y"; "B"].
Proof. vm_compute. reflexivity. Qed.

Example travel_rows_dwell :
  (λ r, (location_id (ev (dr_row r)), Qred (dwell_mins r)))
  <$> dwell_frame travel_rows
  = [ ("A", 60); ("B", 240); ("B", (14399 # 60)); ("A", 240) ]%Q.
Proof. vm_compute. reflexivity. Qed.

Example curious_log_users :
  detect_curious_users (H := reference_library) curious_log curious_allowed
  = [ {| cu_user_id := "U1"; attempts := 2 |};
      {| cu_user_id := "U2"; attempts := 1 |} ].
Proof. vm_compute. reflexivity. Qed.

Lemma travel_detector_consecutive_pairs_witness :
  with_epoch (H := reference_library) travel_log = Ok travel_rows ∧
  ∃ res, detect_impossible_travel (H := reference_library) travel_log = Ok res ∧
    (∀ u, filter (λ f, tf_user_id f = u) res
          = omap pair_finding (consecutive_pairs (per_user_sequence u travel_rows))) ∧
    (∀ u i a b,
        per_user_sequence u travel_rows !! i = Some a →
        per_user_sequence u travel_rows !! S i = Some b →
        finding_for a b ∈ res ↔
          location_id (ev b) ≠ location_id (ev a)
          ∧ epoch b - epoch a < 14400) ∧
    (∀ f, f ∈ res →
          delta_secs f = second_ts f - first_ts f
          ∧ first_location f ≠ second_location f
          ∧ delta_secs f < 14400).
Proof.
  split; [vm_compute; reflexivity|].
  apply (travel_detector_consecutive_pairs (H := reference_library)
           travel_log travel_rows).
  vm_compute. reflexivity.
Defined.


Lemma non_false_success_never_counted_witness :
  (mk_event "U3" "X" "2024-03-01T00:01:00" (Some (PyInt 0)) ∈ curious_log
   ∧ PyInt 0 ≠ PyBool false) ∧
  py_is_False (PyInt 0) = false ∧
  is_unauth curious_allowed (has_success_column curious_log)
    (mk_event "U3" "X" "2024-03-01T00:01:00" (Some (PyInt 0))) = false.
Proof.
  assert (mk_event "U3" "X" "2024-03-01T00:01:00" (Some (PyInt 0)) ∈ curious_log)
    as Hin.
  { right. left. }
  assert (PyInt 0 ≠ PyBool false) as Hv by discriminate.
  split; [done|].
  destruct (non_false_success_never_counted (H := reference_library)
              curious_log curious_allowed _ (PyInt 0) Hin eq_refl Hv)
    as (Hfalse & Hflag & _).
  done.
Defined.

Lemma rooms_without_successor_excluded_witness :
  ∃ out, room_typing (H := reference_library) travel_log = Ok out
         ∧ "A" ∈ rp_room_id <$> out ∧ "C" ∉ rp_room_id <$> out.
Proof.
  destruct (room_typing (H := reference_library) travel_log) as [out|] eqn:Hout;
    [|by vm_compute in Hout].
  exists out. split; [done|].
  destruct (rooms_without_successor_excluded (H := reference_library)
              travel_log travel_rows out) as (_ & Hiff & Hlast);
    [vm_compute; reflexivity|done|].
  split.
  - apply Hiff. exists "U1", 0%nat. eexists. vm_compute. eauto.
  - apply Hlast. clear Hout Hiff Hlast. intros u i a Ha Hr.
    pose proof (list_elem_of_lookup_2 _ _ _ Ha) as Hin.
    apply per_user_sequence_elem_of in Hin as [Hin <-].
    unfold travel_rows, travel_log in Hin. simpl in Hin.
    repeat (apply elem_of_cons in Hin as [->|Hin]);
      try (by apply elem_of_nil in Hin); try discriminate Hr.
    vm_compute. by destruct i.
Defined.

(** The rows, the hours and the result of the conference log. *)
Definition conference_rows : list Row :=
  Eval vm_compute in
    match with_epoch (H := reference_library) conference_log with
    | Ok d => d
    | Err _ => []
    end.

Definition conference_hours : list (option nat) :=
  Eval vm_compute in
    default [] (plain_hours ((λ r, timestamp (ev (dr_row r)))
                             <$> dwell_frame conference_rows)).

Definition conference_rooms : list RoomProfile :=
  Eval vm_compute in
    match room_typing (H := reference_library) conference_log with
    | Ok out => out
    | Err _ => []
    end.

Lemma label_row_last_match_wins_witness :
  room_typing (H := reference_library) conference_log = Ok conference_rooms ∧
  length conference_rooms = 1%nat ∧
  Forall (λ p, rp_room_id p = "R1" ∧ visits p = 10
               ∧ (median_dwell_mins p == 45)%Q
               ∧ room_traffic (visits_of conference_rows conference_hours)
                   "R1" lunch_hours = 10
               ∧ label p = "Conference/Meeting") conference_rooms.
Proof.
  assert (with_epoch (H := reference_library) conference_log
          = Ok conference_rows) as Hd by (vm_compute; reflexivity).
  assert (to_datetime_hour (Library := reference_library)
            ((λ r, timestamp (ev (dr_row r))) <$> dwell_frame conference_rows)
          = Some conference_hours) as Hh by (vm_compute; reflexivity).
  assert (room_typing (H := reference_library) conference_log
          = Ok conference_rooms) as Hout by (vm_compute; reflexivity).
  destruct (label_row_last_match_wins (H := reference_library)
              conference_log conference_rows conference_hours conference_rooms
              Hd Hh Hout)
    as (_ & _ & _ & Hconf & _).
  split; [exact Hout|]. split; [reflexivity|].
  apply Forall_forall. intros p Hp.
  assert (rp_room_id p = "R1" ∧ visits p = 10 ∧ (median_dwell_mins p == 45)%Q)
    as (Hroom & Hvisits & Hmed).
  { unfold conference_rooms in Hp. apply list_elem_of_singleton in Hp as ->.
    vm_compute. repeat split; congruence. }
  assert (room_traffic (visits_of conference_rows conference_hours)
            "R1" lunch_hours = 10) as Hlunch by (vm_compute; reflexivity).
  split; [exact Hroom|]. split; [exact Hvisits|]. split; [exact Hmed|].
  split; [exact Hlunch|].
  apply (Hconf p Hp Hmed); rewrite Hroom; [exact Hlunch|..];
    vm_compute; reflexivity.
Defined.

Lemma analyses_rerun_identical_witness :
  rerun_identical (run_all (H := reference_library) 0 1)
    [Events travel_log; Table curious_allowed]
    (outputs_of (H := reference_library) travel_log curious_allowed).
Proof.
  destruct (analyses_rerun_identical (H := reference_library)
              [Events travel_log; Table curious_allowed] 0%nat 1%nat
              travel_log curious_allowed eq_refl eq_refl)
    as (_ & _ & _ & Hall & _).
  exact Hall.
Defined.

(** * Further properties of the code *)

(** ** EventNormalizer *)

Lemma round_half_even_bounds p q :
  0 ≤ p → 0 < q →
  p / q ≤ round_half_even p q ∧ 2 * q * round_half_even p q ≤ 2 * p + q.
Proof.
  intros Hp Hq. unfold round_half_even.
  pose proof (Z.div_mod p q ltac:(lia)) as Hdm.
  pose proof (Z.mod_pos_bound p q Hq) as Hr.
  repeat case_match; rewrite ?Z.ltb_lt, ?Z.ltb_ge in *; nia.
Qed.

Lemma binade_le n d k :
  0 < n → 0 < d → n < d * 2 ^ (k + 1) → binade n d ≤ k.
Proof.
  intros Hn Hd Hlt. unfold binade.
  set (j := Z.log2 n - Z.log2 d).
  destruct (decide (j ≤ k)) as [Hj|Hj].
  { case_match; lia. }
  (* 2^(log2 n) <= n < d 2^(k+1) < 2^(log2 d + 1 + k + 1) *)
  pose proof (Z.log2_spec n Hn) as [Hn1 Hn2].
  pose proof (Z.log2_spec d Hd) as [Hd1 Hd2].
  pose proof (Z.log2_nonneg n). pose proof (Z.log2_nonneg d).
  assert (0 ≤ k + 1 ∨ k + 1 < 0) as [Hk|Hk] by lia.
  - assert (Z.log2 n < Z.log2 d + 1 + (k + 1)) as Hlog.
    { apply (Z.pow_lt_mono_r_iff 2); [lia|lia|].
      rewrite Z.pow_add_r by lia.
      assert (0 < 2 ^ (k + 1)) by (apply Z.pow_pos_nonneg; lia).
      replace (Z.succ (Z.log2 d)) with (Z.log2 d + 1) in Hd2 by lia. nia. }
    assert (j = k + 1) as Hjk by lia.
    assert (0 ≤ j) by lia.
    replace (0 <=? j) with true by (symmetry; apply Z.leb_le; lia).
    rewrite Hjk. replace (d * 2 ^ (k + 1) <=? n) with false; [lia|].
    symmetry. apply Z.leb_gt. lia.
  - rewrite Z.pow_neg_r in Hlt by lia. lia.
Qed.

Lemma int_of_quotient_pos_small n :
  0 < n → n < 2 ^ 34 * 1000000 →
  int_of_quotient_pos n 1000000 = n / 1000000.
Proof.
  intros Hn Hlt. unfold int_of_quotient_pos.
  pose proof (binade_le n 1000000 33 Hn ltac:(lia) ltac:(lia)) as He.
  set (e := binade n 1000000 - 52) in *.
  replace (0 <=? e) with false by (symmetry; apply Z.leb_gt; lia).
  set (P := 2 ^ (- e)).
  assert (2 ^ 19 ≤ P) as HP by (apply Z.pow_le_mono_r; lia).
  destruct (round_half_even_bounds (n * P) 1000000 ltac:(lia) ltac:(lia))
    as [Hlo Hhi].
  set (m := round_half_even (n * P) 1000000) in *.
  pose proof (Z.div_mod n 1000000 ltac:(lia)) as Hdm.
  pose proof (Z.mod_pos_bound n 1000000 ltac:(lia)) as Hr.
  set (q := n / 1000000) in *. set (r := n mod 1000000) in *.
  assert (q * P ≤ m) as Hm1.
  { etrans; [|exact Hlo]. apply Z.div_le_lower_bound; [lia|nia]. }
  assert (m < (q + 1) * P) as Hm2 by nia.
  symmetry. apply (Z.div_unique_pos m P q (m - q * P)); lia.
Qed.

Lemma int_of_quotient_small n :
  Z.abs n < 2 ^ 34 * 1000000 →
  int_of_quotient n 1000000 = Z.quot n 1000000.
Proof.
  intros Hlt. unfold int_of_quotient.
  destruct (Z.eqb_spec n 0) as [->|Hn]; [done|].
  rewrite int_of_quotient_pos_small by lia.
  rewrite Z.quot_div by lia.
  change (Z.abs 1000000) with 1000000. change (Z.sgn 1000000) with 1. ring.
Qed.

Example timestamp_rounds_up :
  int_of_quotient 19880899200999999 1000000 = 19880899201
  ∧ int_of_quotient 17179869183999999 1000000 = 17179869183.
Proof. vm_compute. done. Qed.

Section normalizer_more.
Context `{Library}.

(** X1.  For an instant less than 2^34 seconds away from 1970-01-01 (the
    years 1426 to 2514), where the double of [dt.timestamp()] still tells
    the microseconds apart, the epoch of a timestamp that parses is its
    instant in whole seconds with the fraction dropped towards zero: it is
    within one second of the instant, exact on whole seconds, never further
    from zero than the instant, and a later instant never gets a smaller
    epoch. *)
Theorem iso_to_epoch_truncates ts dt :
  isoparse ts = Some dt →
  Z.abs (instant dt) < 2 ^ 34 * 1000000 →
  ∃ ep, iso_to_epoch ts = Ok ep ∧
    ep = Z.quot (instant dt) 1000000 ∧
    Z.abs (instant dt - 1000000 * ep) < 1000000 ∧
    Z.abs (1000000 * ep) ≤ Z.abs (instant dt) ∧
    (instant dt mod 1000000 = 0 → 1000000 * ep = instant dt) ∧
    (∀ ts' dt' ep', isoparse ts' = Some dt' →
       Z.abs (instant dt') < 2 ^ 34 * 1000000 →
       iso_to_epoch ts' = Ok ep' →
       instant dt ≤ instant dt' → ep ≤ ep').
Proof.
  intros Hdt Hrange. unfold iso_to_epoch. rewrite Hdt. eexists.
  split; [done|]. fold (instant dt).
  rewrite int_of_quotient_small by done. split; [done|].
  pose proof (Z.quot_rem' (instant dt) 1000000) as Hqr.
  assert (Z.abs (instant dt - 1000000 * (instant dt ÷ 1000000)) < 1000000
          ∧ Z.abs (1000000 * (instant dt ÷ 1000000)) ≤ Z.abs (instant dt))
    as [Hnear Hzero].
  { destruct (Z.le_ge_cases 0 (instant dt)) as [Hpos|Hneg].
    - pose proof (Z.rem_bound_pos_pos (instant dt) 1000000). lia.
    - pose proof (Z.rem_bound_pos_neg (instant dt) 1000000). lia. }
  split; [done|]. split; [done|]. split.
  - intros Hmod. apply Z.mod_divide in Hmod as [k Hk]; [|lia].
    rewrite Hk, Z.quot_mul by lia. lia.
  - intros ts' dt' ep' Hdt' Hrange' Hep' Hle. rewrite Hdt' in Hep'.
    injection Hep' as <-. fold (instant dt').
    rewrite int_of_quotient_small by done. by apply Z.quot_le_mono.
Qed.

End normalizer_more.

(** ** TravelDetector *)

Lemma consecutive_pairs_sorted {A} (R : relation A) (s : list A) a b :
  StronglySorted R s → (a, b) ∈ consecutive_pairs s → R a b.
Proof.
  induction 1 as [|x [|y t] Hs IH Hall]; [by intros ?%elem_of_nil..|].
  rewrite consecutive_pairs_cons. intros [[= -> ->]|Hin]%elem_of_cons; [|auto].
  by apply Forall_cons in Hall as [? _].
Qed.

Lemma consecutive_pairs_elem_of {A} (s : list A) a b :
  (a, b) ∈ consecutive_pairs s → a ∈ s ∧ b ∈ s.
Proof.
  intros [i [Ha Hb]%consecutive_pairs_lookup]%list_elem_of_lookup.
  split; by eapply list_elem_of_lookup_2.
Qed.

Lemma StronglySorted_omap {A B} (R : relation A) (R' : relation B)
    (f : A → option B) (l : list A) :
  (∀ x y x' y', R x y → f x = Some x' → f y = Some y' → R' x' y') →
  StronglySorted R l → StronglySorted R' (omap f l).
Proof.
  intros HR. induction 1 as [|x l Hs IH Hall]; [constructor|].
  rewrite omap_cons_option_list. destruct (f x) as [x'|] eqn:Hx; [|done].
  constructor; [done|]. apply Forall_forall.
  intros y' (y & Hy & Hfy)%list_elem_of_omap.
  eapply HR; [|done..]. by eapply Forall_forall in Hall.
Qed.

Lemma filter_all {A} (P : A → Prop) `{!∀ x, Decision (P x)} (l : list A) :
  Forall P l → filter P l = l.
Proof.
  induction 1 as [|x l Hx _ IH]; [done|]. by rewrite filter_cons_True, IH.
Qed.

Lemma length_omap_le {A B} (f : A → option B) (l : list A) :
  (length (omap f l) ≤ length l)%nat.
Proof.
  induction l as [|x l IH]; [done|].
  rewrite omap_cons_option_list, length_app. destruct (f x); simpl; lia.
Qed.

Lemma NoDup_fmap_eq {A B} (f : A → B) (l : list A) x y :
  NoDup (f <$> l) → x ∈ l → y ∈ l → f x = f y → x = y.
Proof.
  induction l as [|z l IH]; [by intros _ ?%elem_of_nil|].
  rewrite fmap_cons, NoDup_cons.
  intros [Hz Hnd] [->|Hx]%elem_of_cons [->|Hy]%elem_of_cons Hf; [done| | |auto].
  - destruct Hz. rewrite Hf. by apply list_elem_of_fmap_2.
  - destruct Hz. rewrite <-Hf. by apply list_elem_of_fmap_2.
Qed.

Lemma travel_frame_rows seen l : tr_row <$> travel_frame seen l = l.
Proof.
  revert seen. induction l as [|r t IH]; intros seen; [done|].
  change (travel_frame seen (r :: t))
    with (add_prev r (head (filter (same_user r) seen))
          :: travel_frame (r :: seen) t).
  by rewrite fmap_cons, IH.
Qed.

Lemma finding_of_row r f :
  finding_of r = Some f →
  tf_user_id f = row_user (tr_row r) ∧ second_ts f = epoch (tr_row r).
Proof.
  unfold finding_of. destruct (travel_mask r); [|done].
  destruct (prev_loc r); [|done]. destruct (prev_epoch r); [|done].
  by intros [= <-].
Qed.

Lemma travel_finding_pairs d f :
  f ∈ omap finding_of (travel_frame [] (sort_values d)) ↔
  ∃ p, p ∈ consecutive_pairs (per_user_sequence (tf_user_id f) d)
       ∧ pair_finding p = Some f.
Proof.
  rewrite <-list_elem_of_omap, <-sort_values_user.
  pose proof (travel_findings_user (tf_user_id f) [] (sort_values d)) as Hu.
  simpl in Hu. rewrite <-Hu, list_elem_of_filter. tauto.
Qed.

Section travel_more.
Context `{Library}.

Lemma detect_impossible_travel_inv df res :
  detect_impossible_travel df = Ok res →
  ∃ d, with_epoch df = Ok d
       ∧ res = omap finding_of (travel_frame [] (sort_values d)).
Proof.
  unfold detect_impossible_travel.
  destruct (with_epoch df) as [d|]; [|done]. intros [= <-]. eauto.
Qed.

Lemma with_epoch_filter (P : AccessEvent → Prop) `{!∀ e, Decision (P e)} df d :
  with_epoch df = Ok d →
  with_epoch (filter P df) = Ok (filter (λ r, P (ev r)) d).
Proof.
  revert d. induction df as [|e df IH]; intros d.
  - by intros [= <-].
  - rewrite with_epoch_cons.
    destruct (iso_to_epoch (timestamp e)) as [ep|] eqn:He; [|done]. simpl.
    destruct (with_epoch df) as [d'|]; [|done]. simpl. intros [= <-].
    rewrite !filter_cons. simpl. destruct (decide (P e)); [|auto].
    rewrite with_epoch_cons, He. simpl. by rewrite (IH d').
Qed.

Lemma with_epoch_row_of df d :
  with_epoch df = Ok d ↔
  Forall (λ e, is_Some (isoparse (timestamp e))) df ∧ d = row_of <$> df.
Proof.
  revert d. induction df as [|e df IH]; intros d.
  - split; [by intros [= <-]|by intros [_ ->]].
  - rewrite with_epoch_cons, Forall_cons, fmap_cons. unfold row_of at 1.
    destruct (iso_to_epoch (timestamp e)) as [ep|] eqn:He; simpl.
    + destruct (with_epoch df) as [d'|]; simpl.
      * destruct (proj1 (IH d') eq_refl) as [Hall ->]. split.
        -- intros [= <-]. split; [|done]. split; [|done].
           by eapply iso_to_epoch_Ok.
        -- by intros [_ ->].
      * split; [done|]. intros [[_ Hall] _].
        discriminate (proj2 (IH (row_of <$> df)) (conj Hall eq_refl)).
    + split; [done|]. intros [[[dt Hdt] _] _].
      unfold iso_to_epoch in He. by rewrite Hdt in He.
Qed.

(** X2.  A finding never invents data: it stems from two events of the
    log of its user, carries their locations and parsed epochs, first
    event first, and its elapsed time is never negative. *)
Theorem travel_findings_sound df res f :
  detect_impossible_travel df = Ok res → f ∈ res →
  0 ≤ delta_secs f ∧ first_ts f ≤ second_ts f ∧
  ∃ e1 e2, e1 ∈ df ∧ e2 ∈ df
    ∧ user_id e1 = tf_user_id f ∧ user_id e2 = tf_user_id f
    ∧ location_id e1 = first_location f ∧ location_id e2 = second_location f
    ∧ iso_to_epoch (timestamp e1) = Ok (first_ts f)
    ∧ iso_to_epoch (timestamp e2) = Ok (second_ts f).
Proof.
  intros (d & Hd & ->)%detect_impossible_travel_inv
    ([a b] & Hp & Hf)%travel_finding_pairs.
  pose proof (consecutive_pairs_sorted _ _ _ _
                (per_user_sequence_sorted _ d) Hp) as Hle.
  apply consecutive_pairs_elem_of in Hp as [Ha Hb].
  apply per_user_sequence_elem_of in Ha as [Ha Hua].
  apply per_user_sequence_elem_of in Hb as [Hb Hub].
  destruct (with_epoch_Ok df d Hd) as [Hev Hall].
  rewrite Forall_forall in Hall.
  unfold pair_finding in Hf. simpl in Hf. case_decide; [|done].
  injection Hf as <-. simpl in *. unfold epoch_le in Hle.
  split; [lia|]. split; [done|].
  exists (ev a), (ev b). rewrite <-Hev.
  repeat split; auto using list_elem_of_fmap_2.
Qed.

(** X3.  The findings are listed by user, ascending, and for one user by
    the time of the second event, ascending. *)
Theorem travel_findings_ordered df res :
  detect_impossible_travel df = Ok res → StronglySorted finding_le res.
Proof.
  intros (d & Hd & ->)%detect_impossible_travel_inv.
  apply (StronglySorted_omap (λ a b, row_le (tr_row a) (tr_row b))).
  - intros x y f g Hxy [Hfu Hft]%finding_of_row [Hgu Hgt]%finding_of_row.
    unfold finding_le. rewrite Hfu, Hft, Hgu, Hgt. exact Hxy.
  - apply StronglySorted_fmap_inv. rewrite travel_frame_rows.
    apply sort_values_sorted.
Qed.

(** X4.  Users do not interfere: the findings of a user are those the
    detector gives on that user's events alone, and they are at most one
    fewer than the user's events, so a user seen once is never flagged. *)
Theorem travel_per_user df res u :
  detect_impossible_travel df = Ok res →
  detect_impossible_travel (filter (λ e, user_id e = u) df)
  = Ok (filter (λ f, tf_user_id f = u) res) ∧
  (length (filter (λ f, tf_user_id f = u) res)
   ≤ pred (length (filter (λ e, user_id e = u) df)))%nat.
Proof.
  intros (d & Hd & ->)%detect_impossible_travel_inv.
  pose proof (travel_findings_user u [] (sort_values d)) as Hu.
  simpl in Hu. rewrite sort_values_user in Hu. split.
  - rewrite (detect_impossible_travel_ok _ _ (with_epoch_filter _ df d Hd)).
    f_equal. rewrite Hu.
    set (du := filter (λ r, user_id (ev r) = u) d).
    pose proof (travel_findings_user u [] (sort_values du)) as Hdu.
    simpl in Hdu. rewrite sort_values_user in Hdu.
    assert (per_user_sequence u du = per_user_sequence u d) as Hseq.
    { unfold per_user_sequence, du. f_equal.
      apply filter_all, Forall_forall. by intros r [? _]%list_elem_of_filter. }
    rewrite Hseq in Hdu. rewrite <-Hdu. symmetry. apply filter_all.
    apply Forall_forall. intros f (r & Hr & Hf)%list_elem_of_omap.
    apply finding_of_row in Hf as [-> _].
    assert (tr_row r ∈ tr_row <$> travel_frame [] (sort_values du)) as Hin
      by by apply list_elem_of_fmap_2.
    rewrite travel_frame_rows in Hin. apply stable_sort_elem_of in Hin.
    by apply list_elem_of_filter in Hin as [? _].
  - rewrite Hu. etrans; [apply length_omap_le|].
    rewrite consecutive_pairs_length. unfold per_user_sequence.
    rewrite stable_sort_length.
    destruct (with_epoch_Ok df d Hd) as [<- _].
    apply Nat.eq_le_incl. f_equal.
    rewrite <-(length_fmap ev (filter _ d)). f_equal.
    clear. unfold row_user. induction d as [|r d IH]; [done|].
    rewrite fmap_cons, !filter_cons.
    destruct (decide (user_id (ev r) = u)); [|done].
    by rewrite fmap_cons, IH.
Qed.

(** X5.  When no user has two events with one epoch, the findings do not
    depend on the order of the records in the log. *)
Theorem travel_order_independent df df' d :
  with_epoch df = Ok d → NoDup (row_key <$> d) → df ≡ₚ df' →
  detect_impossible_travel df' = detect_impossible_travel df.
Proof.
  intros Hd Hkeys Hperm.
  apply with_epoch_row_of in Hd as [Hall ->].
  assert (with_epoch df' = Ok (row_of <$> df')) as Hd'.
  { apply with_epoch_row_of. split; [|done]. by rewrite <-Hperm. }
  rewrite (detect_impossible_travel_ok _ _ Hd').
  rewrite (detect_impossible_travel_ok df (row_of <$> df))
    by (apply with_epoch_row_of; by split).
  do 3 f_equal. apply (StronglySorted_unique_strong row_le).
  - intros x y Hx Hy Hxy Hyx.
    apply stable_sort_elem_of in Hx. apply stable_sort_elem_of in Hy.
    rewrite Hperm in Hy.
    apply (NoDup_fmap_eq row_key (row_of <$> df')); [|done..|].
    + by rewrite <-Hperm.
    + unfold row_key.
      destruct Hxy as [[Hne Hle]|[Heq Hle]], Hyx as [[Hne' Hle']|[Heq' Hle']];
        try congruence.
      * destruct Hne. by apply (anti_symm String.le).
      * f_equal; [done|lia].
  - apply sort_values_sorted.
  - apply sort_values_sorted.
  - unfold sort_values. rewrite !stable_sort_perm. by rewrite Hperm.
Qed.

End travel_more.

(** ** Counting by groups *)

Lemma sum_Z_perm (l k : list Z) :
  l ≡ₚ k → foldr Z.add 0 l = foldr Z.add 0 k.
Proof. induction 1; simpl; lia. Qed.

Lemma sum_Z_shift {K} (f g : K → Z) (ks : list K) :
  (∀ k, k ∈ ks → f k = g k + 1) →
  foldr Z.add 0 (f <$> ks) = foldr Z.add 0 (g <$> ks) + Z.of_nat (length ks).
Proof.
  induction ks as [|k ks IH]; intros Hfg; [done|].
  rewrite !fmap_cons. cbn [foldr length].
  rewrite IH by (intros k' Hk'; apply Hfg; by right).
  rewrite (Hfg k) by left. lia.
Qed.

Lemma length_filter_impl {A} (P Q : A → Prop)
    `{!∀ x, Decision (P x), !∀ x, Decision (Q x)} (l : list A) :
  (∀ x, x ∈ l → P x → Q x) →
  (length (filter P l) ≤ length (filter Q l))%nat.
Proof.
  induction l as [|x l IH]; intros HPQ; [done|].
  rewrite !filter_cons.
  assert (length (filter P l) ≤ length (filter Q l))%nat as Hl.
  { apply IH. intros y Hy. apply HPQ. by right. }
  destruct (decide (P x)) as [Hp|], (decide (Q x)) as [|Hq]; simpl; try lia.
  destruct Hq. apply HPQ; [left|done].
Qed.

(** The sizes of the groups of a list add up to its length. *)
Lemma group_count {A K} `{!EqDecision K} (key : A → K) (ks : list K)
    (l : list A) :
  NoDup ks → (∀ x, x ∈ l → key x ∈ ks) →
  foldr Z.add 0 ((λ k, Z.of_nat (length (filter (λ x, key x = k) l))) <$> ks)
  = Z.of_nat (length l).
Proof.
  revert l. induction ks as [|k ks IH]; intros l Hnd Hcov.
  - destruct l as [|x l]; [done|].
    by destruct (proj1 (elem_of_nil (key x)) (Hcov x (list_elem_of_here _ _))).
  - apply NoDup_cons in Hnd as [Hk Hnd]. rewrite fmap_cons. cbn [foldr].
    pose proof (Permutation_length
                  (filter_app_complement (λ x, key x = k) l)) as Hlen.
    rewrite length_app in Hlen. rewrite <-Hlen, Nat2Z.inj_add. f_equal.
    rewrite <-(IH (filter (λ x, ¬ key x = k) l) Hnd).
    + f_equal. apply list_fmap_ext. intros _ k' Hk'%list_elem_of_lookup_2.
      do 2 f_equal. rewrite list_filter_filter. apply list_filter_iff.
      intros x. split; [|tauto]. intros ->. split; [done|]. by intros ->.
    + intros x [Hx Hin]%list_elem_of_filter.
      by destruct (proj1 (elem_of_cons _ _ _) (Hcov x Hin)).
Qed.

Lemma group_keys_same keys keys' :
  (∀ k, k ∈ keys ↔ k ∈ keys') → group_keys keys = group_keys keys'.
Proof.
  intros Hsame. apply (StronglySorted_unique String.le).
  - apply group_keys_sorted.
  - apply group_keys_sorted.
  - apply NoDup_Permutation; [apply group_keys_NoDup..|].
    intros k. by rewrite !group_keys_elem_of.
Qed.

(** ** AccessAuditor *)

Lemma unauthorized_count_perm allowed_map df df' u :
  df ≡ₚ df' →
  unauthorized_count allowed_map df u = unauthorized_count allowed_map df' u.
Proof. intros Hperm. unfold unauthorized_count. by rewrite Hperm. Qed.

Section auditor_more.
Context `{Library}.

(** X6.  The result of AccessAuditor, rows and their order, does not
    depend on the order of the records in the log. *)
Theorem curious_order_independent df df' allowed_map :
  df ≡ₚ df' →
  detect_curious_users df' allowed_map = detect_curious_users df allowed_map.
Proof.
  intros Hperm. rewrite !detect_curious_users_eq. f_equal.
  rewrite (group_keys_same (user_id <$> filter (unauthorized allowed_map) df')
             (user_id <$> filter (unauthorized allowed_map) df))
    by (intros k; by rewrite Hperm).
  apply list_fmap_ext. intros _ u _. f_equal.
  symmetry. by apply unauthorized_count_perm.
Qed.

(** X7.  Granting rooms never adds attempts: under a permission table
    that allows every user at least the rooms of another table, no user has
    more attempts than under that other table. *)
Theorem curious_monotone_in_permissions df allowed_map allowed_map' :
  (∀ u, allowed_rooms allowed_map u ⊆ allowed_rooms allowed_map' u) →
  ∀ u, attempts_of (detect_curious_users df allowed_map') u
       ≤ attempts_of (detect_curious_users df allowed_map) u.
Proof.
  intros Hsub u. rewrite !attempts_of_detect. unfold unauthorized_count.
  apply inj_le, length_filter_impl.
  intros e _ [Hu [Hs Hr]]. split; [done|]. split; [done|].
  intros Hin. apply Hr. by apply Hsub.
Qed.

(** X8.  The attempt counts of the result add up to the number of events
    of the log that are unauthorized attempts: none is lost and none is
    counted twice. *)
Theorem curious_attempts_total df allowed_map :
  foldr Z.add 0 (attempts <$> detect_curious_users df allowed_map)
  = Z.of_nat (length (filter (unauthorized allowed_map) df)).
Proof.
  rewrite (sum_Z_perm _ _
             (fmap_Permutation attempts _ _
                (detect_curious_users_perm df allowed_map))).
  rewrite <-list_fmap_compose.
  rewrite <-(group_count user_id
               (group_keys (user_id <$> filter (unauthorized allowed_map) df))
               (filter (unauthorized allowed_map) df)).
  - f_equal. apply list_fmap_ext. intros _ u _. simpl.
    unfold unauthorized_count. do 2 f_equal.
    by rewrite list_filter_filter.
  - apply group_keys_NoDup.
  - intros e He. apply group_keys_elem_of. by apply list_elem_of_fmap_2.
Qed.

Lemma attempts_of_unknown_user df allowed_map u :
  allowed_map !! u = None →
  attempts_of (detect_curious_users df allowed_map) u
  = Z.of_nat (length (filter (λ e, user_id e = u
                                   ∧ success e = Some (PyBool false)) df)).
Proof.
  intros Hu. rewrite attempts_of_detect. unfold unauthorized_count.
  do 2 f_equal. apply list_filter_iff. intros e.
  unfold unauthorized, allowed_rooms. split.
  - intros [He [Hs _]]. done.
  - intros [He Hs]. split; [done|]. split; [done|].
    rewrite He, Hu. simpl. set_solver.
Qed.

(** X9.  A user the permission table does not know has an empty allowed
    set: each of that user's events whose [success] is the boolean false
    is an attempt, whatever the room. *)
Theorem curious_unknown_user df allowed_map u :
  allowed_map !! u = None →
  attempts_of (detect_curious_users df allowed_map) u
  = Z.of_nat (length (filter (λ e, user_id e = u
                                   ∧ success e = Some (PyBool false)) df)).
Proof. apply attempts_of_unknown_user. Qed.

End auditor_more.

(** ** RoomProfiler *)

Lemma dwell_frame_elem d r :
  r ∈ dwell_frame d →
  ∃ a b, a ∈ d ∧ b ∈ d ∧ row_user a = row_user b
         ∧ dwell_of a (Some b) = Some r.
Proof.
  intros Hr.
  assert (Some r ∈ Some <$> filter (λ r', row_user (dr_row r') = row_user (dr_row r))
                              (dwell_frame d)) as Hin.
  { apply list_elem_of_fmap_2, list_elem_of_filter. done. }
  rewrite dwell_frame_user in Hin.
  apply list_elem_of_fmap in Hin as ([a b] & Hab & Hp).
  apply consecutive_pairs_elem_of in Hp as [Ha Hb].
  apply per_user_sequence_elem_of in Ha as [Ha Hua].
  apply per_user_sequence_elem_of in Hb as [Hb Hub].
  exists a, b. simpl in *. repeat split; [done..|congruence|done].
Qed.

Lemma dwell_mins_bounds d r :
  r ∈ dwell_frame d → (0 <= dwell_mins r <= 240)%Q.
Proof.
  intros (a & b & _ & _ & _ & [= <-])%dwell_frame_elem. simpl.
  unfold clip. split.
  - apply Q.min_glb; [|done]. apply Q.le_max_r.
  - apply Q.le_min_r.
Qed.

Lemma dwell_frame_length_user d u :
  length (filter (λ r, row_user (dr_row r) = u) (dwell_frame d))
  = pred (length (filter (λ r, row_user r = u) d)).
Proof.
  rewrite <-(length_fmap Some), dwell_frame_user, length_fmap.
  rewrite consecutive_pairs_length. unfold per_user_sequence.
  by rewrite stable_sort_length.
Qed.

(** The median of a group lies between its smallest and largest value. *)
Lemma median_bounds vals lo hi :
  vals ≠ [] → Forall (λ v, lo <= v <= hi)%Q vals →
  (lo <= median vals <= hi)%Q.
Proof.
  intros Hne Hall. unfold median.
  set (s := stable_sort Qle vals).
  assert (Forall (λ v, lo <= v <= hi)%Q s) as Hs
    by (unfold s; by rewrite stable_sort_perm).
  assert (0 < length s)%nat as Hlen.
  { unfold s. rewrite stable_sort_length. destruct vals; [done|simpl; lia]. }
  assert (∀ i, (i < length s)%nat →
            (lo <= default 0 (s !! i) <= hi)%Q) as Hget.
  { intros i Hi. destruct (lookup_lt_is_Some_2 s i Hi) as [v Hv].
    rewrite Hv. simpl. eapply Forall_forall in Hs; [done|].
    by eapply list_elem_of_lookup_2. }
  pose proof (Nat.div_lt (length s) 2 Hlen ltac:(lia)) as Hhalf.
  destruct (Nat.even (length s)).
  - destruct (Hget (length s / 2 - 1)%nat ltac:(lia)) as [? ?].
    destruct (Hget (length s / 2)%nat Hhalf) as [? ?].
    split.
    + apply Qle_shift_div_l; [reflexivity|]. lra.
    + apply Qle_shift_div_r; [reflexivity|]. lra.
  - by apply Hget.
Qed.

Lemma label_row_range r :
  label_row r ∈ ["Other/Office"; "Lobby/Entry"; "Conference/Meeting";
                 "Hallway/Break"; "Cafeteria"; "Security/Overnight/Server"].
Proof.
  unfold label_row. cbv zeta.
  repeat match goal with
         | |- context [if ?b then _ else _] => destruct b
         end;
    repeat first [apply list_elem_of_here | apply list_elem_of_further].
Qed.

Section profiler_more.
Context `{Library}.

Lemma room_typing_inv df out :
  room_typing df = Ok out →
  ∃ d hours,
    with_epoch df = Ok d ∧
    to_datetime_hour ((λ r, timestamp (ev (dr_row r))) <$> dwell_frame d)
    = Some hours ∧
    out = sort_values_desc visits
            ((λ r, {| rp_room_id := ar_room_id r;
                      visits := ar_visits r;
                      median_dwell_mins := ar_median_dwell_mins r;
                      label := label_row r |})
             <$> room_agg (imap (λ i r, {| hr_row := r;
                                           hour := mjoin (hours !! i) |})
                             (dwell_frame d))).
Proof.
  unfold room_typing. destruct (with_epoch df) as [d|]; [|done]. simpl.
  destruct (to_datetime_hour _) as [hours|] eqn:Hh; [|done]. simpl.
  intros [= <-]. eauto.
Qed.

(** X10.  Every row of a RoomProfiler result counts at least one visit,
    has a median dwell between 0 and 240 minutes and carries one of the six
    labels; the rows stand by visit count, largest first. *)
Theorem room_rows_wellformed df out :
  room_typing df = Ok out →
  StronglySorted (λ a b, visits b ≤ visits a) out ∧
  ∀ p, p ∈ out →
    1 ≤ visits p ∧ (0 <= median_dwell_mins p <= 240)%Q ∧
    label p ∈ ["Other/Office"; "Lobby/Entry"; "Conference/Meeting";
               "Hallway/Break"; "Cafeteria"; "Security/Overnight/Server"].
Proof.
  intros (d & hours & Hd & Hh & ->)%room_typing_inv.
  split; [apply sort_values_desc_sorted|].
  intros p Hp. apply sort_values_desc_elem_of in Hp.
  apply list_elem_of_fmap in Hp as (r & -> & Hr). simpl.
  split; [|split; [|apply label_row_range]].
  - unfold room_agg in Hr. apply list_elem_of_fmap in Hr as (room & -> & Hroom).
    simpl. apply group_keys_elem_of, list_elem_of_fmap in Hroom as (x & -> & Hx).
    destruct (filter _ _) as [|y g] eqn:Hg; [|simpl; lia].
    assert (x ∈ filter (λ r, dr_room (hr_row r) = dr_room (hr_row x))
                  (imap (λ i r, {| hr_row := r; hour := mjoin (hours !! i) |})
                     (dwell_frame d))) as Hin
      by by apply list_elem_of_filter.
    rewrite Hg in Hin. by apply elem_of_nil in Hin.
  - unfold room_agg in Hr. apply list_elem_of_fmap in Hr as (room & -> & Hroom).
    simpl. apply group_keys_elem_of, list_elem_of_fmap in Hroom as (x & -> & Hx).
    apply median_bounds.
    + intros Hnil%fmap_nil_inv.
      assert (x ∈ filter (λ r, dr_room (hr_row r) = dr_room (hr_row x))
                    (imap (λ i r, {| hr_row := r; hour := mjoin (hours !! i) |})
                       (dwell_frame d))) as Hin
        by by apply list_elem_of_filter.
      rewrite Hnil in Hin. by apply elem_of_nil in Hin.
    + apply Forall_fmap, Forall_forall.
      intros y [_ Hy]%list_elem_of_filter.
      apply elem_of_lookup_imap in Hy as (i & z & -> & Hz). simpl.
      eapply dwell_mins_bounds. by eapply list_elem_of_lookup_2.
Qed.

Lemma dwell_frame_length d :
  Z.of_nat (length (dwell_frame d))
  = Z.of_nat (length d) - Z.of_nat (length (remove_dups (row_user <$> d))).
Proof.
  set (ks := remove_dups (row_user <$> d)).
  rewrite <-(group_count (λ r, row_user (dr_row r)) ks (dwell_frame d)).
  - rewrite <-(group_count row_user ks d).
    + rewrite (sum_Z_shift
                 (λ k, Z.of_nat (length (filter (λ x, row_user x = k) d)))
                 (λ k, Z.of_nat (length (filter (λ x, row_user (dr_row x) = k)
                                           (dwell_frame d)))) ks); [lia|].
      intros k (x & -> & Hx)%elem_of_remove_dups%list_elem_of_fmap.
      cbv beta. rewrite dwell_frame_length_user.
      assert (x ∈ filter (λ x0, row_user x0 = row_user x) d) as Hin
        by by apply list_elem_of_filter.
      destruct (filter (λ x0, row_user x0 = row_user x) d) as [|y g];
        [by apply elem_of_nil in Hin|simpl; lia].
    + apply NoDup_remove_dups.
    + intros x Hx. by apply elem_of_remove_dups, list_elem_of_fmap_2.
  - apply NoDup_remove_dups.
  - intros r (a & b & Ha & _ & _ & [= <-])%dwell_frame_elem. simpl.
    by apply elem_of_remove_dups, list_elem_of_fmap_2.
Qed.

(** X11.  The visit counts of a RoomProfiler result add up to the number
    of events of the log less the number of its users: every event is one
    visit of its room, but for the last event of each user. *)
Theorem room_visits_total df out :
  room_typing df = Ok out →
  foldr Z.add 0 (visits <$> out)
  = Z.of_nat (length df) - Z.of_nat (length (remove_dups (user_id <$> df))).
Proof.
  intros (d & hours & Hd & Hh & ->)%room_typing_inv.
  rewrite (sum_Z_perm _ _ (fmap_Permutation visits _ _
                             (sort_values_desc_perm visits _))).
  rewrite <-list_fmap_compose. unfold room_agg. rewrite <-list_fmap_compose.
  set (dh := imap _ (dwell_frame d)).
  rewrite (list_fmap_ext _
             (λ k, Z.of_nat (length (filter (λ x, dr_room (hr_row x) = k) dh)))
             (group_keys _)) by done.
  rewrite group_count.
  - unfold dh. rewrite length_imap, dwell_frame_length.
    destruct (with_epoch_Ok df d Hd) as [<- _].
    rewrite length_fmap, <-list_fmap_compose. done.
  - apply group_keys_NoDup.
  - intros x Hx. apply group_keys_elem_of.
    by apply (list_elem_of_fmap_2 (λ r, dr_room (hr_row r))).
Qed.

End profiler_more.

(** ** RoomProfiler: which rule decides the label *)

Ltac rule_iff :=
  rewrite ?andb_true_iff, ?Zgtb_decide, ?Zeqb_decide, ?Qle_bool_decide,
    ?Qltb_decide, ?bool_decide_eq_true;
  tauto.

Ltac rules_exclusive H1 H2 :=
  apply not_true_is_false;
  intros [?%H1 ?%H2]%andb_true_iff;
  repeat match goal with
         | H : _ ∧ _ |- _ => destruct H
         end;
  first [lra | lia].

(** X12.  Which label a room gets, rule by rule: the overnight label
    whenever its rule holds; the cafeteria label when its rule holds and
    the overnight rule does not; the hallway label whenever its rule holds
    (no later rule can hold with it); the conference label when its rule
    holds and neither the cafeteria nor the overnight rule does; the lobby
    label when its rule holds and the hallway rule does not; and the
    default label exactly when no rule holds. *)
Theorem label_row_characterised r :
  (label_row r = "Security/Overnight/Server" ↔ security_rule r) ∧
  (label_row r = "Cafeteria" ↔ cafeteria_rule r ∧ ¬ security_rule r) ∧
  (label_row r = "Hallway/Break" ↔ hallway_rule r) ∧
  (label_row r = "Conference/Meeting"
   ↔ conference_rule r ∧ ¬ cafeteria_rule r ∧ ¬ security_rule r) ∧
  (label_row r = "Lobby/Entry" ↔ lobby_rule r ∧ ¬ hallway_rule r) ∧
  (label_row r = "Other/Office"
   ↔ ¬ lobby_rule r ∧ ¬ conference_rule r ∧ ¬ hallway_rule r
     ∧ ¬ cafeteria_rule r ∧ ¬ security_rule r).
Proof.
  set (c1 := (morning r >? lunch r) && Qltb (ar_median_dwell_mins r) 15).
  set (c2 := Qle_bool 25 (ar_median_dwell_mins r)
             && Qle_bool (ar_median_dwell_mins r) 150
             && (lunch r >? morning r) && (lunch r >? evening r)).
  set (c3 := Qltb (ar_median_dwell_mins r) 10
             && (morning r + lunch r + evening r >? 50) && (night r =? 0)).
  set (c4 := Qle_bool 40 (ar_median_dwell_mins r)
             && Qle_bool (ar_median_dwell_mins r) 90
             && (lunch r >? morning r + evening r) && (lunch r >? 20)).
  set (c5 := (night r >? morning r + lunch r + evening r)
             && Qle_bool 60 (ar_median_dwell_mins r)).
  assert (label_row r
          = if c5 then "Security/Overnight/Server"
            else if c4 then "Cafeteria"
            else if c3 then "Hallway/Break"
            else if c2 then "Conference/Meeting"
            else if c1 then "Lobby/Entry" else "Other/Office") as ->
    by reflexivity.
  assert (c1 = true ↔ lobby_rule r) as H1
    by (unfold c1, lobby_rule; rule_iff).
  assert (c2 = true ↔ conference_rule r) as H2
    by (unfold c2, conference_rule; rule_iff).
  assert (c3 = true ↔ hallway_rule r) as H3
    by (unfold c3, hallway_rule; rule_iff).
  assert (c4 = true ↔ cafeteria_rule r) as H4
    by (unfold c4, cafeteria_rule; rule_iff).
  assert (c5 = true ↔ security_rule r) as H5
    by (unfold c5, security_rule; rule_iff).
  assert (c1 && c2 = false) as E12
    by (unfold lobby_rule, conference_rule in *; rules_exclusive H1 H2).
  assert (c1 && c4 = false) as E14
    by (unfold lobby_rule, cafeteria_rule in *; rules_exclusive H1 H4).
  assert (c1 && c5 = false) as E15
    by (unfold lobby_rule, security_rule in *; rules_exclusive H1 H5).
  assert (c2 && c3 = false) as E23
    by (unfold conference_rule, hallway_rule in *; rules_exclusive H2 H3).
  assert (c3 && c4 = false) as E34
    by (unfold hallway_rule, cafeteria_rule in *; rules_exclusive H3 H4).
  assert (c3 && c5 = false) as E35
    by (unfold hallway_rule, security_rule in *; rules_exclusive H3 H5).
  rewrite <-H1, <-H2, <-H3, <-H4, <-H5.
  clear H1 H2 H3 H4 H5. clearbody c1 c2 c3 c4 c5.
  destruct c1, c2, c3, c4, c5; simpl in *; try discriminate;
    repeat split; intros; try done; try discriminate; intuition discriminate.
Qed.

(** ** RoomProfiler: the hour counts *)

(** X13.  The 24 hour counts of a room never add up to more than its
    visits: a visit whose hour could not be derived is in no hour count.
    They add up to the visits when every hour was derived. *)
Theorem room_hours_within_visits (dh : list HourRow) (r : AggRow) :
  r ∈ room_agg dh →
  length (ar_hours r) = 24%nat ∧
  foldr Z.add 0 (ar_hours r) ≤ ar_visits r ∧
  (Forall (λ x, ∃ h, hour x = Some h ∧ (h < 24)%nat) dh →
   foldr Z.add 0 (ar_hours r) = ar_visits r).
Proof.
  unfold room_agg. intros (room & -> & _)%list_elem_of_fmap.
  cbn [ar_hours ar_visits].
  split; [by rewrite length_fmap, length_seq|].
  set (g := filter (λ x, dr_room (hr_row x) = room) dh).
  set (ks := Some <$> seq 0 24).
  set (g' := filter (λ x, hour x ∈ ks) g).
  assert (foldr Z.add 0 (hour_count dh room <$> seq 0 24)
          = Z.of_nat (length g')) as ->.
  { rewrite <-(group_count hour ks g').
    - unfold ks. rewrite <-list_fmap_compose. f_equal.
      apply list_fmap_ext. intros _ h Hh%list_elem_of_lookup_2. simpl.
      unfold hour_count, g', g. do 2 f_equal.
      rewrite !list_filter_filter. apply list_filter_iff. intros x.
      split; [|tauto]. intros [Hroom Hhour]. split; [|done]. split; [done|].
      rewrite Hhour. by apply list_elem_of_fmap_2.
    - apply (NoDup_fmap_2 Some), NoDup_seq.
    - by intros x [? _]%list_elem_of_filter. }
  split; [apply inj_le, length_filter|].
  intros Hall. do 2 f_equal. apply filter_all, Forall_forall.
  intros x [_ Hx]%list_elem_of_filter.
  eapply Forall_forall in Hall as (h & -> & Hh); [|done].
  apply list_elem_of_fmap_2, elem_of_seq. lia.
Qed.

(** ** Loading the event log *)

Section loading_facts.
Context `{Runtime}.

Lemma read_jsonl_rows_app rows l1 l2 :
  read_jsonl_rows rows (l1 ++ l2)
  = rows' ← read_jsonl_rows rows l1; read_jsonl_rows rows' l2.
Proof.
  revert rows. induction l1 as [|line l1 IH]; intros rows; [done|].
  cbn [app read_jsonl_rows]. case_decide; [apply IH|].
  destruct (json_loads (py_strip line)); [apply IH|done].
Qed.

Lemma read_jsonl_rows_spec acc lines rows :
  read_jsonl_rows acc lines = Return rows ↔
  ∃ new, rows = acc ++ new
         ∧ json_loads <$> filter (λ l, l ≠ "") (py_strip <$> lines)
           = Some <$> new.
Proof.
  revert acc. induction lines as [|line lines IH]; intros acc.
  - simpl. split.
    + intros [= <-]. exists []. by rewrite app_nil_r.
    + intros (new & -> & Hnew). symmetry in Hnew.
      apply fmap_nil_inv in Hnew as ->. by rewrite app_nil_r.
  - cbn [read_jsonl_rows]. rewrite fmap_cons, filter_cons.
    destruct (decide (py_strip line = "")) as [Hblank|Hline].
    + rewrite decide_False by tauto. apply IH.
    + rewrite decide_True by done. rewrite fmap_cons.
      destruct (json_loads (py_strip line)) as [row|].
      * rewrite IH. split.
        -- intros (new & -> & Hnew). exists (row :: new).
           rewrite <-app_assoc. split; [done|]. by rewrite fmap_cons, Hnew.
        -- intros (new & -> & Hnew). destruct new as [|row' new]; [done|].
           rewrite fmap_cons in Hnew. injection Hnew as <- Hnew.
           exists new. by rewrite <-app_assoc.
      * split; [done|]. intros (new & _ & Hnew).
        destruct new; done.
Qed.

(** X14.  [read_jsonl] keeps the decoded non-blank lines, in order: the
    loop returns a list of rows exactly when every line that is not empty
    once stripped decodes, and the rows are their decodings in the order of
    the lines.  A line that is blank once stripped changes nothing,
    wherever it stands. *)
Theorem read_jsonl_rows_decoded lines :
  (∀ rows, read_jsonl_rows [] lines = Return rows ↔
           json_loads <$> filter (λ l, l ≠ "") (py_strip <$> lines)
           = Some <$> rows) ∧
  (∀ l1 blank l2, lines = l1 ++ blank :: l2 → py_strip blank = "" →
     read_jsonl_rows [] lines = read_jsonl_rows [] (l1 ++ l2)).
Proof.
  split.
  - intros rows. rewrite read_jsonl_rows_spec. split.
    + by intros (new & -> & Hnew).
    + intros Hrows. by exists rows.
  - intros l1 blank l2 -> Hblank. rewrite !read_jsonl_rows_app.
    destruct (read_jsonl_rows [] l1) as [rows|]; [|done]. simpl.
    by rewrite decide_True.
Qed.

(** X15.  The first line that is not blank and does not decode ends the
    load with its decoding error, whatever was read before and whatever
    follows: no frame is built from the lines that did decode. *)
Theorem read_jsonl_undecodable_line pre bad post rows :
  read_jsonl_rows [] pre = Return rows →
  py_strip bad ≠ "" → json_loads (py_strip bad) = None →
  read_jsonl_rows [] (pre ++ bad :: post)
  = Raise (JSONDecodeError (py_strip bad)).
Proof.
  intros Hpre Hline Hbad. rewrite read_jsonl_rows_app, Hpre. simpl.
  by rewrite decide_False, Hbad.
Qed.

End loading_facts.

(** ** Loading the permission table *)

Fixpoint continuation (s : string) : bool :=
  match s with
  | EmptyString => true
  | String c t => is_continuation c && continuation t
  end.

Lemma chars_head c t : ∃ x rest, chars (String c t) = String c x :: rest.
Proof.
  simpl. destruct (chars t) as [|next rest]; [by eexists _, _|].
  destruct (continues t); by eexists _, _.
Qed.

Lemma chars_one c t : continuation t = true → chars (String c t) = [String c t].
Proof.
  revert c. induction t as [|c' t IH]; intros c Ht; [done|].
  simpl in Ht. apply andb_true_iff in Ht as [Hc Ht].
  change (chars (String c (String c' t)))
    with (match chars (String c' t) with
          | next :: rest =>
              if is_continuation c' then String c next :: rest
              else String c EmptyString :: next :: rest
          | [] => [String c EmptyString]
          end).
  rewrite (IH c' Ht), Hc. done.
Qed.

Lemma chars_elem s x :
  x ∈ chars s → ∃ c t, x = String c t ∧ continuation t = true.
Proof.
  revert x. induction s as [|c s IH]; intros x Hx.
  { by apply elem_of_nil in Hx. }
  destruct s as [|c' s'].
  { apply list_elem_of_singleton in Hx as ->. by eexists _, _. }
  change (chars (String c (String c' s')))
    with (match chars (String c' s') with
          | next :: rest =>
              if is_continuation c' then String c next :: rest
              else String c EmptyString :: next :: rest
          | [] => [String c EmptyString]
          end) in Hx.
  destruct (chars_head c' s') as (y & rest & Hch).
  rewrite Hch in Hx, IH.
  destruct (is_continuation c') eqn:Hc.
  - apply elem_of_cons in Hx as [->|Hx].
    + destruct (IH (String c' y)) as (c0 & t0 & [= <- <-] & Ht); [left|].
      exists c, (String c' y). split; [done|]. simpl. by rewrite Hc, Ht.
    + apply IH. by right.
  - apply elem_of_cons in Hx as [->|Hx]; [by eexists _, _|]. by apply IH.
Qed.

Lemma chars_elem_one s x : x ∈ chars s → py_len x = 1%nat.
Proof.
  intros (c & t & -> & Ht)%chars_elem. unfold py_len. by rewrite chars_one.
Qed.

Lemma chars_concat s : foldr String.app "" (chars s) = s.
Proof.
  induction s as [|c s IH]; [done|].
  simpl. destruct (chars s) as [|next rest].
  { destruct s; [done|]. destruct (chars_head a s) as (? & ? & Hch).
    simpl in IH. discriminate IH. }
  destruct (continues s);
    change (String c (foldr String.app "" (next :: rest)) = String c s);
    by rewrite IH.
Qed.

Lemma py_len_one s : py_len s = 1%nat → chars s = [s].
Proof.
  unfold py_len. intros Hlen. pose proof (chars_concat s) as Hs.
  destruct (chars s) as [|x [|y l]]; try done.
  simpl in Hs. f_equal. rewrite <-Hs. clear.
  induction x as [|c x IH]; [done|].
  change (String c x = String c (x +:+ "")). by f_equal.
Qed.

Section permission_facts.
Context `{Runtime}.

Lemma load_list_app allowed l1 l2 :
  load_list allowed (l1 ++ l2)
  = allowed' ← load_list allowed l1; load_list allowed' l2.
Proof.
  revert allowed. induction l1 as [|rec l1 IH]; intros allowed; [done|].
  cbn [app load_list].
  destruct (rec_get rec "user_id") as [uid|]; [|done]. simpl.
  destruct (record_rooms rec) as [rooms|]; [|done]. simpl.
  destruct (store allowed uid rooms) as [allowed'|]; [|done]. simpl.
  apply IH.
Qed.

Lemma store_other allowed uid rooms allowed' u :
  uid ≠ Some (JStr u) → store allowed uid rooms = Return allowed' →
  allowed' !! u = allowed !! u.
Proof.
  intros Hne. unfold store.
  destruct uid as [[| | | |u'| |]|]; intros [= <-]; try done.
  apply lookup_insert_ne. congruence.
Qed.

Lemma load_list_other u allowed l m :
  Forall (λ rec, rec_get rec "user_id" ≠ Return (Some (JStr u))) l →
  load_list allowed l = Return m → m !! u = allowed !! u.
Proof.
  intros Hl. revert allowed.
  induction Hl as [|rec l Hrec _ IH]; intros allowed; [by intros [= <-]|].
  cbn [load_list].
  destruct (rec_get rec "user_id") as [uid|]; [|done]. simpl.
  destruct (record_rooms rec) as [rooms|]; [|done]. simpl.
  destruct (store allowed uid rooms) as [allowed'|] eqn:Hst; [|done]. simpl.
  intros Hm. rewrite (IH _ Hm). eapply store_other; [|done]. congruence.
Qed.

(** X16.  In a list of records a later record of a user replaces an
    earlier one (the sets are not merged): the table holds for a user the
    rooms of the last record that names the user, and no entry for a user
    no record names. *)
Theorem load_list_last_record_wins recs m u :
  allowed_of_data (JList recs) = Return m →
  (∀ pre rec post, recs = pre ++ rec :: post →
     rec_get rec "user_id" = Return (Some (JStr u)) →
     Forall (λ r, rec_get r "user_id" ≠ Return (Some (JStr u))) post →
     ∃ rooms, record_rooms rec = Return rooms ∧ m !! u = Some rooms) ∧
  (Forall (λ r, rec_get r "user_id" ≠ Return (Some (JStr u))) recs →
   m !! u = None).
Proof.
  unfold allowed_of_data. intros Hm. split.
  - intros pre rec post -> Hu Hpost.
    rewrite load_list_app in Hm.
    destruct (load_list ∅ pre) as [a|]; [|done]. simpl in Hm.
    rewrite Hu in Hm. simpl in Hm.
    destruct (record_rooms rec) as [rooms|]; [|done]. simpl in Hm.
    exists rooms. split; [done|].
    rewrite (load_list_other u _ post m Hpost Hm). apply lookup_insert_eq.
  - intros Hall. by rewrite (load_list_other u ∅ recs m Hall Hm).
Qed.

(** X17.  The table is loaded whole or not at all: one record that is not
    an object, in a list or as a value of a dict, makes the load raise. *)
Theorem load_rejects_malformed_record rec :
  (∀ fields, rec ≠ JObject fields) →
  (∀ recs, rec ∈ recs → ∃ e, allowed_of_data (JList recs) = Raise e) ∧
  (∀ items u, (u, rec) ∈ items → ∃ e, allowed_of_data (JObject items) = Raise e).
Proof.
  intros Hrec.
  assert (∀ k, rec_get rec k = Raise AttributeError) as Hget.
  { intros k. destruct rec; try done. by destruct (Hrec fields). }
  split.
  - intros recs (pre & post & ->)%list_elem_of_split. unfold allowed_of_data.
    rewrite load_list_app.
    destruct (load_list ∅ pre) as [a|e]; [|by exists e]. simpl.
    rewrite Hget. by exists AttributeError.
  - intros items u Hin. unfold allowed_of_data. generalize (∅ : gmap string (gset string)).
    induction items as [|[k r] items IH]; intros a; [by apply elem_of_nil in Hin|].
    cbn [load_dict]. apply elem_of_cons in Hin as [[= <- <-]|Hin].
    + unfold record_rooms. rewrite Hget. by exists AttributeError.
    + destruct (record_rooms r) as [rooms|e]; [|by exists e]. simpl. by apply IH.
Qed.

Lemma load_dict_spec allowed items m :
  load_dict allowed items = Return m →
  (∀ u, u ∉ items.*1 → m !! u = allowed !! u) ∧
  (NoDup items.*1 → ∀ u rec, (u, rec) ∈ items →
     ∃ rooms, record_rooms rec = Return rooms ∧ m !! u = Some rooms).
Proof.
  revert allowed. induction items as [|[k r] items IH]; intros allowed.
  - intros [= <-]. split; [done|]. by intros _ u rec ?%elem_of_nil.
  - cbn [load_dict].
    destruct (record_rooms r) as [rooms|] eqn:Hr; [|done]. simpl.
    intros [Hother Hin]%IH.
    change (list_fmap _ _ fst items) with (items.*1). split.
    + intros u [Hne Hu]%not_elem_of_cons. rewrite Hother by done.
      by apply lookup_insert_ne.
    + intros [Hk Hnd]%NoDup_cons u rec [[= -> ->]|Hrec]%elem_of_cons.
      * exists rooms. split; [done|]. rewrite Hother by done.
        apply lookup_insert_eq.
      * by apply Hin.
Qed.

(** X18.  In a dict of records every key gets the rooms of its own value,
    whatever [user_id] that value may carry, and the table has no other
    entry. *)
Theorem load_dict_entries items m :
  NoDup items.*1 → allowed_of_data (JObject items) = Return m →
  (∀ u rec, (u, rec) ∈ items →
     ∃ rooms, record_rooms rec = Return rooms ∧ m !! u = Some rooms) ∧
  (∀ u, u ∉ items.*1 → m !! u = None).
Proof.
  unfold allowed_of_data. intros Hnd [Hother Hin]%load_dict_spec. split.
  - by apply Hin.
  - intros u Hu. by rewrite Hother.
Qed.

(** X19.  What [set(rec.get("allowed_rooms", []))] makes of a record: no
    room when the key is missing; the listed rooms, whatever their order
    and however often they are listed; the single characters of a string,
    so a string of more than one character does not allow the room it
    names, while a string of one character allows just that; and an error
    for null, a boolean or a number. *)
Theorem record_rooms_cases fields :
  (dict_get fields "allowed_rooms" = None →
   record_rooms (JObject fields) = Return ∅) ∧
  (∀ rooms, dict_get fields "allowed_rooms" = Some (JList (JStr <$> rooms)) →
     ∃ s, record_rooms (JObject fields) = Return s ∧ ∀ room, room ∈ s ↔ room ∈ rooms) ∧
  (∀ text, dict_get fields "allowed_rooms" = Some (JStr text) →
     ∃ s, record_rooms (JObject fields) = Return s
          ∧ (∀ room, room ∈ s → py_len room = 1%nat)
          ∧ ((1 < py_len text)%nat → text ∉ s)
          ∧ (py_len text = 1%nat → s = {[ text ]})) ∧
  (∀ v, dict_get fields "allowed_rooms" = Some v →
     v = JNull ∨ (∃ b, v = JBool b) ∨ (∃ n, v = JInt n) ∨ (∃ q, v = JFloat q) →
     record_rooms (JObject fields) = Raise TypeError).
Proof.
  unfold record_rooms, rec_get. simpl.
  split; [by intros ->|]. split; [|split].
  - intros rooms ->. simpl.
    assert (forallb hashable (JStr <$> rooms) = true) as ->.
    { apply forallb_forall. intros v (room & -> & _)%list_elem_of_In%list_elem_of_fmap. done. }
    eexists. split; [done|]. intros room.
    rewrite elem_of_list_to_set, list_elem_of_omap. split.
    + intros (v & (r & -> & Hr)%list_elem_of_fmap & [= <-]). done.
    + intros Hr. exists (JStr room). split; [by apply list_elem_of_fmap_2|done].
  - intros text ->. simpl. eexists. split; [done|].
    assert (∀ room, room ∈ (list_to_set (chars text) : gset string) →
                    py_len room = 1%nat) as Hone.
    { intros room Hin%elem_of_list_to_set. by eapply chars_elem_one. }
    split; [done|]. split.
    + intros Hlen Hin%Hone. lia.
    + intros Hlen. rewrite (py_len_one text Hlen). simpl.
      apply (right_id_L ∅ (∪)).
  - intros v -> [->|[[b ->]|[[n ->]|[q ->]]]]; done.
Qed.

End permission_facts.

(** ** The entry point *)

Section entry_facts.
Context `{Library} `{Runtime}.

(** X20.  A profile document that is neither a list nor a dict loads,
    without any error, as the empty table; every event whose [success] is
    the boolean false then counts as an attempt. *)
Theorem allowed_of_other_data data :
  (∀ recs, data ≠ JList recs) → (∀ items, data ≠ JObject items) →
  allowed_of_data data = Return ∅ ∧
  ∀ df u,
    attempts_of (detect_curious_users df ∅) u
    = Z.of_nat (length (filter (λ e, user_id e = u
                                     ∧ success e = Some (PyBool false)) df)).
Proof.
  intros Hl Ho. split.
  - destruct data; try done; [by destruct (Hl items)|by destruct (Ho fields)].
  - intros df u. by apply attempts_of_unknown_user.
Qed.

Lemma main_usage argv :
  (length argv < 3)%nat → main argv = ([Print usage], Raise (SystemExit 1)).
Proof. intros Hlen. unfold main. by rewrite decide_True. Qed.

Lemma main_run argv :
  (3 ≤ length argv)%nat →
  main argv =
    match read_jsonl (default "" (argv !! 1%nat)) with
    | Raise e => ([], Raise e)
    | Return df =>
    match load_allowed_rooms (default "" (argv !! 2%nat)) with
    | Raise e => ([], Raise e)
    | Return allowed =>
    match travel_of df with
    | Raise e => ([], Raise e)
    | Return imp =>
      match curious_of df allowed with
      | Raise e => ([ToJson "cloned_findings.json" (FindingsJson imp)], Raise e)
      | Return curious =>
        match rooms_of df with
        | Raise e =>
            ([ToJson "cloned_findings.json" (FindingsJson imp);
              ToJson "curious_users.json" (CuriousJson curious)],
             Raise e)
        | Return rooms =>
            ([ToJson "cloned_findings.json" (FindingsJson imp);
              ToJson "curious_users.json" (CuriousJson curious);
              ToJson "room_types.json" (RoomsJson rooms);
              Print "== Done ==";
              Print ("Impossible traveler flags: " +:+ pretty (length imp));
              Print ("Curious users found: " +:+ pretty (length curious));
              Print ("Labeled rooms: " +:+ pretty (length rooms))],
             Return ())
        end
      end
    end end end.
Proof.
  intros Hlen. unfold main. rewrite decide_False by lia.
  destruct (read_jsonl _); [|done].
  destruct (load_allowed_rooms _); [|done].
  destruct (travel_of _); [|done].
  destruct (curious_of _ _); [|done].
  by destruct (rooms_of _).
Qed.

Lemma need_Return c df : need c df = Return () ↔ c ∈ columns df.
Proof. unfold need. destruct (decide (c ∈ columns df)); naive_solver. Qed.

Lemma need_Raise c df : c ∉ columns df → need c df = Raise (KeyError c).
Proof. intros Hc. unfold need. by rewrite decide_False. Qed.

Lemma travel_of_raises df e :
  e ∈ records df → isoparse (timestamp e) = None →
  ∃ err, travel_of df = Raise err ∧
    ("timestamp" ∈ columns df →
     ∃ ts, isoparse ts = None ∧ err = AnalysisError (ParseError ts)).
Proof.
  intros Hin He. unfold travel_of.
  destruct (decide ("timestamp" ∈ columns df)) as [Hc|Hc].
  - rewrite (proj2 (need_Return _ _) Hc). cbn [mbind outcome_bind].
    destruct (with_epoch_Err (records df) e Hin He) as (ts & Hts & Herr).
    unfold detect_impossible_travel. rewrite Herr.
    exists (AnalysisError (ParseError ts)). split; [reflexivity|].
    intros _. by exists ts.
  - rewrite (need_Raise "timestamp") by done. exists (KeyError "timestamp").
    split; [reflexivity|]. done.
Qed.

(** X22.  The files a run writes are, in this order, [cloned_findings.json],
    [curious_users.json] and [room_types.json], or the first two, or the
    first, or none; the run returns normally exactly when it wrote all
    three, and it prints the closing line exactly then. *)
Theorem main_writes_in_order argv :
  written (main argv).1 `prefix_of`
    ["cloned_findings.json"; "curious_users.json"; "room_types.json"] ∧
  ((main argv).2 = Return ()
   ↔ written (main argv).1
     = ["cloned_findings.json"; "curious_users.json"; "room_types.json"]) ∧
  ((main argv).2 = Return () ↔ Print "== Done ==" ∈ (main argv).1).
Proof.
  assert (∀ (trace : list effect) (e : py_error) k,
            written trace ++ k
            = ["cloned_findings.json"; "curious_users.json"; "room_types.json"] →
            k ≠ [] → Forall (λ x, ∃ p c, x = ToJson p c) trace →
            written trace `prefix_of`
              ["cloned_findings.json"; "curious_users.json"; "room_types.json"] ∧
            ((trace, Raise e : outcome ()).2 = Return ()
             ↔ written (trace, Raise e : outcome ()).1
               = ["cloned_findings.json"; "curious_users.json"; "room_types.json"]) ∧
            ((trace, Raise e : outcome ()).2 = Return ()
             ↔ Print "== Done ==" ∈ (trace, Raise e : outcome ()).1)) as Hraise.
  { intros trace e k Hk Hne Hall. cbn [fst snd]. split; [by exists k|].
    split; (split; [done|]).
    - intros Heq. rewrite Heq in Hk.
      rewrite <-(app_nil_r [_; _; _]) in Hk at 2.
      by apply app_inv_head in Hk.
    - intros Hin. rewrite Forall_forall in Hall.
      by destruct (Hall _ Hin) as (? & ? & ?). }
  destruct (decide (length argv < 3)%nat) as [Hlen|Hlen].
  - rewrite (main_usage argv Hlen). cbn [fst snd written omap list_omap].
    split; [by eexists|]. split; (split; [done|]); [done|].
    by intros [[=]|?%elem_of_nil]%elem_of_cons.
  - rewrite main_run by lia.
    destruct (read_jsonl _); [|by eapply (Hraise [])].
    destruct (load_allowed_rooms _); [|by eapply (Hraise [])].
    destruct (travel_of _); [|by eapply (Hraise [])].
    destruct (curious_of _ _);
      [|eapply (Hraise [_]); [done|done|]; repeat constructor; by eexists _, _].
    destruct (rooms_of _);
      [|eapply (Hraise [_; _]); [done|done|]; repeat constructor; by eexists _, _].
    cbn [fst snd]. split; [by exists []|]. split; [done|].
    split; [|done]. intros _. apply list_elem_of_lookup. by exists 3%nat.
Qed.

(** X23.  A log with a timestamp that does not parse makes [main] raise
    before it writes any file; with the parse error, when the frame has a
    [timestamp] column. *)
Theorem main_unparseable_timestamp argv df allowed e :
  (3 ≤ length argv)%nat →
  read_jsonl (default "" (argv !! 1%nat)) = Return df →
  load_allowed_rooms (default "" (argv !! 2%nat)) = Return allowed →
  e ∈ records df → isoparse (timestamp e) = None →
  (∃ err, main argv = ([], Raise err)) ∧
  ("timestamp" ∈ columns df →
   ∃ ts, isoparse ts = None
         ∧ main argv = ([], Raise (AnalysisError (ParseError ts)))).
Proof.
  intros Hlen Hdf Ha Hin He.
  destruct (travel_of_raises df e Hin He) as (err & Herr & Hts).
  rewrite main_run, Hdf, Ha, Herr by done.
  split; [by exists err|]. intros Hc.
  destruct (Hts Hc) as (ts & Hnone & ->). by exists ts.
Qed.

Lemma failed_event df e :
  e ∈ df → success e = Some (PyBool false) → existsb (failed df) df = true.
Proof.
  intros Hin He. apply existsb_exists. exists e.
  split; [by apply list_elem_of_In|].
  unfold failed, row_get_success, has_success_column.
  rewrite bool_decide_eq_true_2.
  - by rewrite He.
  - apply Exists_exists. exists e. split; [done|]. by rewrite He.
Qed.

Ltac not_written :=
  let Hin := fresh "Hin" in
  cbn [fst written omap list_omap]; intros Hin;
  repeat (apply elem_of_cons in Hin as [[=]|Hin]);
  by apply elem_of_nil in Hin.

Lemma failed_none df :
  (∀ e, e ∈ df → success e ≠ Some (PyBool false)) →
  existsb (failed df) df = false.
Proof.
  intros Hno. apply not_true_is_false. intros (e & Hin & He)%existsb_exists.
  apply list_elem_of_In in Hin. specialize (Hno e Hin).
  unfold failed, row_get_success in He.
  destruct (has_success_column df); [|done].
  destruct (success e) as [[[]| | | | |]|]; done.
Qed.

Lemma detect_curious_users_quiet df allowed :
  (∀ e, e ∈ df → success e ≠ Some (PyBool false)) →
  detect_curious_users df allowed = [].
Proof.
  intros Hno. apply Permutation_nil_r. rewrite detect_curious_users_perm.
  rewrite (nil_length_inv (filter (unauthorized allowed) df)); [done|].
  apply length_filter_none. intros e Hin [He _]. by apply (Hno e).
Qed.

Lemma rooms_of_missing df :
  "room_id" ∉ columns df → ∃ err, rooms_of df = Raise err.
Proof.
  intros Hroom. unfold rooms_of.
  destruct (room_typing (records df)); [|by eexists].
  rewrite need_Raise by done. by eexists.
Qed.

Lemma curious_of_failed df allowed e :
  "room_id" ∉ columns df →
  e ∈ records df → success e = Some (PyBool false) →
  curious_of df allowed = Raise (KeyError "room_id").
Proof.
  intros Hroom Hin He. unfold curious_of.
  rewrite (failed_event _ e Hin He), need_Raise by done. done.
Qed.

(** X24.  A frame without a [room_id] column never gets its
    [room_types.json]: the run raises, at the latest in the room analysis,
    where [groupby("room_id")] comes after the hours.  When the log holds
    a failed access it raises already in the access audit, so that no
    [curious_users.json] is written either; when it holds none, the audit
    reads no [room_id] and writes an empty [curious_users.json]. *)
Theorem main_missing_room_id argv df allowed :
  (3 ≤ length argv)%nat →
  read_jsonl (default "" (argv !! 1%nat)) = Return df →
  load_allowed_rooms (default "" (argv !! 2%nat)) = Return allowed →
  "room_id" ∉ columns df →
  (∃ err, (main argv).2 = Raise err) ∧
  ("room_types.json" ∉ written (main argv).1) ∧
  ((∃ e, e ∈ records df ∧ success e = Some (PyBool false)) →
   "curious_users.json" ∉ written (main argv).1) ∧
  (∀ imp rooms,
     travel_of df = Return imp →
     (∀ e, e ∈ records df → success e ≠ Some (PyBool false)) →
     room_typing (records df) = Ok rooms →
     main argv = ([ToJson "cloned_findings.json" (FindingsJson imp);
                   ToJson "curious_users.json" (CuriousJson [])],
                  Raise (KeyError "room_id"))).
Proof.
  intros Hlen Hdf Ha Hroom. rewrite main_run, Hdf, Ha by done.
  destruct (rooms_of_missing df Hroom) as [err Herr].
  split; [|split; [|split]].
  - destruct (travel_of df); [|by eexists].
    destruct (curious_of df allowed); [|by eexists].
    rewrite Herr. by eexists.
  - destruct (travel_of df); [|not_written].
    destruct (curious_of df allowed); [|not_written].
    rewrite Herr. not_written.
  - intros (e & Hin & He).
    destruct (travel_of df); [|not_written].
    rewrite (curious_of_failed df allowed e) by done. not_written.
  - intros imp rooms -> Hno Hrooms. unfold curious_of, rooms_of.
    rewrite failed_none, detect_curious_users_quiet, Hrooms by done.
    cbn [mbind outcome_bind]. by rewrite need_Raise.
Qed.

(** X25.  An events file without a line that is not blank gives a frame
    without columns: [main] writes nothing and raises, with the KeyError
    of [timestamp] when the profile loads. *)
Theorem main_empty_log argv lines :
  (3 ≤ length argv)%nat →
  open_lines (default "" (argv !! 1%nat)) = Some lines →
  Forall (λ line, py_strip line = "") lines →
  (∃ err, main argv = ([], Raise err)) ∧
  (∀ allowed,
     load_allowed_rooms (default "" (argv !! 2%nat)) = Return allowed →
     main argv = ([], Raise (KeyError "timestamp"))).
Proof.
  intros Hlen Hopen Hblank.
  assert (read_jsonl (default "" (argv !! 1%nat))
          = Return {| columns := []; records := [] |}) as Hread.
  { unfold read_jsonl. rewrite Hopen.
    assert (read_jsonl_rows [] lines = Return []) as ->.
    { apply read_jsonl_rows_spec. exists []. split; [done|].
      rewrite (nil_length_inv (filter _ _)); [done|].
      apply length_filter_none.
      intros l (line & -> & Hl)%list_elem_of_fmap.
      rewrite Forall_forall in Hblank. rewrite (Hblank line Hl). tauto. }
    cbn [mbind outcome_bind mret outcome_ret]. by rewrite DataFrame_nil. }
  rewrite main_run, Hread by done.
  destruct (load_allowed_rooms _) as [allowed|err].
  - split; [by eexists|]. done.
  - split; [by eexists|]. done.
Qed.

End entry_facts.

(** ** The further properties on the sample logs *)

Example sample_read_jsonl :
  read_jsonl (H := sample_runtime) "travel.jsonl"
  = Return {| columns := sample_columns; records := travel_log |}
  ∧ read_jsonl (H := sample_runtime) "broken.jsonl"
    = Return {| columns := sample_columns; records := broken_log |}
  ∧ read_jsonl (H := sample_runtime) "noroom.jsonl"
    = Return (sample_frame noroom_rows)
  ∧ load_allowed_rooms (H := sample_runtime) "profile.json"
    = Return curious_allowed.
Proof. vm_compute. repeat split; reflexivity. Qed.

Lemma iso_to_epoch_truncates_witness :
  plain_isoparse "2024-03-01T01:00:00"
  = Some {| dt_wall := 1709254800000000; dt_tzinfo := None |} ∧
  ∃ ep, iso_to_epoch (H := reference_library) "2024-03-01T01:00:00" = Ok ep
        ∧ 1000000 * ep = 1709254800000000.
Proof.
  assert (plain_isoparse "2024-03-01T01:00:00"
          = Some {| dt_wall := 1709254800000000; dt_tzinfo := None |}) as Hts.
  { vm_compute. reflexivity. }
  split; [done|].
  destruct (iso_to_epoch_truncates (H := reference_library) _ _ Hts)
    as (ep & Hep & _ & _ & _ & Hexact & _).
  { vm_compute. reflexivity. }
  exists ep. split; [done|]. apply Hexact. vm_compute. reflexivity.
Defined.

Lemma travel_findings_sound_witness :
  ∃ res f, detect_impossible_travel (H := reference_library) travel_log = Ok res
           ∧ f ∈ res ∧ 0 ≤ delta_secs f ∧ first_ts f ≤ second_ts f.
Proof.
  destruct (detect_impossible_travel (H := reference_library) travel_log)
    as [[|f res]|] eqn:Hres; [by vm_compute in Hres| |by vm_compute in Hres].
  assert (f ∈ f :: res) as Hin by left.
  exists (f :: res), f. split; [reflexivity|]. split; [exact Hin|].
  destruct (travel_findings_sound (H := reference_library) travel_log
              (f :: res) f Hres Hin) as (Hpos & Hle & _).
  exact (conj Hpos Hle).
Defined.

Lemma travel_findings_ordered_witness :
  ∃ res, detect_impossible_travel (H := reference_library) travel_log = Ok res
         ∧ StronglySorted finding_le res.
Proof.
  destruct (detect_impossible_travel (H := reference_library) travel_log)
    as [res|] eqn:Hres; [|by vm_compute in Hres].
  exists res. split; [reflexivity|].
  exact (travel_findings_ordered (H := reference_library) travel_log res Hres).
Defined.

Lemma travel_per_user_witness :
  ∃ res, detect_impossible_travel (H := reference_library) travel_log = Ok res
         ∧ detect_impossible_travel (H := reference_library)
             (filter (λ e, user_id e = "U2") travel_log)
           = Ok (filter (λ f, tf_user_id f = "U2") res)
         ∧ filter (λ f, tf_user_id f = "U2") res = [].
Proof.
  destruct (detect_impossible_travel (H := reference_library) travel_log)
    as [res|] eqn:Hres; [|by vm_compute in Hres].
  exists res. split; [reflexivity|].
  destruct (travel_per_user (H := reference_library) travel_log res "U2" Hres)
    as [Hsub Hlen].
  split; [exact Hsub|]. apply nil_length_inv.
  change (length (filter (λ e, user_id e = "U2") travel_log)) with 1%nat in Hlen.
  simpl in Hlen. lia.
Defined.

Lemma travel_order_independent_witness :
  (with_epoch (H := reference_library) travel_log = Ok travel_rows
   ∧ NoDup (row_key <$> travel_rows)
   ∧ travel_log ≡ₚ reverse travel_log) ∧
  detect_impossible_travel (H := reference_library) (reverse travel_log)
  = detect_impossible_travel (H := reference_library) travel_log.
Proof.
  assert (with_epoch (H := reference_library) travel_log = Ok travel_rows)
    as Hd by (vm_compute; reflexivity).
  assert (NoDup (row_key <$> travel_rows)) as Hkeys.
  { refine (bool_decide_unpack _ _). vm_compute. exact I. }
  assert (travel_log ≡ₚ reverse travel_log) as Hperm.
  { symmetry. apply reverse_Permutation. }
  split; [exact (conj Hd (conj Hkeys Hperm))|].
  exact (travel_order_independent (H := reference_library) _ _ _ Hd Hkeys Hperm).
Defined.

Lemma curious_order_independent_witness :
  curious_log ≡ₚ reverse curious_log ∧
  detect_curious_users (H := reference_library) (reverse curious_log)
    curious_allowed
  = detect_curious_users (H := reference_library) curious_log curious_allowed.
Proof.
  assert (curious_log ≡ₚ reverse curious_log) as Hperm.
  { symmetry. apply reverse_Permutation. }
  split; [done|].
  exact (curious_order_independent (H := reference_library) _ _ _ Hperm).
Defined.

Lemma curious_monotone_in_permissions_witness :
  (∀ u, allowed_rooms curious_allowed u
        ⊆ allowed_rooms (<["U1" := {["Y"]}]> curious_allowed) u) ∧
  attempts_of (detect_curious_users (H := reference_library) curious_log
                 (<["U1" := {["Y"]}]> curious_allowed)) "U1"
  ≤ attempts_of (detect_curious_users (H := reference_library) curious_log
                   curious_allowed) "U1".
Proof.
  assert (∀ u, allowed_rooms curious_allowed u
               ⊆ allowed_rooms (<["U1" := {["Y"]}]> curious_allowed) u) as Hsub.
  { intros u. unfold allowed_rooms.
    destruct (decide (u = "U1")) as [->|Hu].
    - replace (curious_allowed !! "U1") with (@None (gset string))
        by (vm_compute; reflexivity).
      simpl. set_solver.
    - by rewrite lookup_insert_ne. }
  split; [done|].
  exact (curious_monotone_in_permissions (H := reference_library)
           curious_log _ _ Hsub "U1").
Defined.

Lemma curious_unknown_user_witness :
  curious_allowed !! "U1" = None ∧
  attempts_of (detect_curious_users (H := reference_library) curious_log
                 curious_allowed) "U1"
  = 2.
Proof.
  assert (curious_allowed !! "U1" = None) as Hu by (vm_compute; reflexivity).
  split; [done|].
  rewrite (curious_unknown_user (H := reference_library) curious_log _ _ Hu).
  vm_compute. reflexivity.
Defined.

Lemma room_rows_wellformed_witness :
  ∃ out, room_typing (H := reference_library) conference_log = Ok out
         ∧ StronglySorted (λ a b, visits b ≤ visits a) out
         ∧ Forall (λ p, 1 ≤ visits p ∧ (0 <= median_dwell_mins p <= 240)%Q) out.
Proof.
  destruct (room_typing (H := reference_library) conference_log)
    as [out|] eqn:Hout; [|by vm_compute in Hout].
  exists out. split; [reflexivity|].
  destruct (room_rows_wellformed (H := reference_library) conference_log out Hout)
    as [Hsorted Hrows].
  split; [exact Hsorted|]. apply Forall_forall. intros p Hp.
  destruct (Hrows p Hp) as (Hv & Hm & _). exact (conj Hv Hm).
Defined.

Lemma room_visits_total_witness :
  ∃ out, room_typing (H := reference_library) travel_log = Ok out
         ∧ foldr Z.add 0 (visits <$> out) = 4.
Proof.
  destruct (room_typing (H := reference_library) travel_log)
    as [out|] eqn:Hout; [|by vm_compute in Hout].
  exists out. split; [reflexivity|].
  rewrite (room_visits_total (H := reference_library) travel_log out Hout).
  vm_compute. reflexivity.
Defined.

Lemma room_hours_within_visits_witness :
  ∃ r, r ∈ room_agg sample_hours
       ∧ length (ar_hours r) = 24%nat
       ∧ foldr Z.add 0 (ar_hours r) ≤ ar_visits r.
Proof.
  destruct (room_agg sample_hours) as [|r rest] eqn:Hagg;
    [by vm_compute in Hagg|].
  assert (r ∈ r :: rest) as Hin by left.
  exists r. split; [exact Hin|].
  destruct (room_hours_within_visits sample_hours r) as (Hlen & Hsum & _).
  { rewrite Hagg. exact Hin. }
  exact (conj Hlen Hsum).
Defined.

Lemma read_jsonl_undecodable_line_witness :
  (read_jsonl_rows (H := sample_runtime) [] ["travel-0" +:+ nl; nl]
   = Return [json_of_event (mk_event "U1" "A" "2024-03-01T00:00:00" None)]
   ∧ ascii_strip (" oops" +:+ nl) ≠ ""
   ∧ dict_get sample_documents (ascii_strip (" oops" +:+ nl)) = None) ∧
  read_jsonl_rows (H := sample_runtime) []
    (["travel-0" +:+ nl; nl] ++ (" oops" +:+ nl) :: ["travel-1" +:+ nl])
  = Raise (JSONDecodeError "oops").
Proof.
  assert (read_jsonl_rows (H := sample_runtime) [] ["travel-0" +:+ nl; nl]
          = Return [json_of_event (mk_event "U1" "A" "2024-03-01T00:00:00" None)])
    as Hpre by (vm_compute; reflexivity).
  assert (ascii_strip (" oops" +:+ nl) ≠ "") as Hbad by (vm_compute; discriminate).
  assert (dict_get sample_documents (ascii_strip (" oops" +:+ nl)) = None)
    as Hnone by (vm_compute; reflexivity).
  split; [done|].
  exact (read_jsonl_undecodable_line (H := sample_runtime) _ _
           ["travel-1" +:+ nl] _ Hpre Hbad Hnone).
Defined.

Lemma load_list_last_record_wins_witness :
  ∃ m, allowed_of_data (JList sample_records) = Return m
       ∧ m !! "U1" = Some {["B"]} ∧ m !! "U2" = None.
Proof.
  destruct (allowed_of_data (JList sample_records)) as [m|] eqn:Hm;
    [|by vm_compute in Hm].
  exists m. split; [done|].
  destruct (load_list_last_record_wins sample_records m "U1" Hm) as [Hlast _].
  destruct (load_list_last_record_wins sample_records m "U2" Hm) as [_ Hnone].
  split.
  - destruct (Hlast
                [JObject [("user_id", JStr "U1"); ("allowed_rooms", JList [JStr "A"])]]
                (JObject [("user_id", JStr "U1"); ("allowed_rooms", JList [JStr "B"])])
                [] eq_refl eq_refl (Forall_nil_2 _))
      as (rooms & Hrooms & Hlook).
    rewrite Hlook. f_equal. vm_compute in Hrooms. injection Hrooms as <-.
    vm_compute. reflexivity.
  - apply Hnone. unfold sample_records.
    repeat (apply Forall_cons; split; [by vm_compute|]). apply Forall_nil_2.
Defined.

Lemma load_rejects_malformed_record_witness :
  (∀ fields, JStr "U1" ≠ JObject fields) ∧
  ∃ e, allowed_of_data (JList (sample_records ++ [JStr "U1"])) = Raise e.
Proof.
  assert (∀ fields, JStr "U1" ≠ JObject fields) as Hrec by done.
  split; [done|].
  apply (proj1 (load_rejects_malformed_record (JStr "U1") Hrec)).
  apply elem_of_app. right. left.
Defined.

Lemma load_dict_entries_witness :
  NoDup sample_items.*1 ∧
  ∃ m, allowed_of_data (JObject sample_items) = Return m
       ∧ m !! "U1" = Some {["A"]} ∧ m !! "U9" = None.
Proof.
  assert (NoDup sample_items.*1) as Hkeys.
  { refine (bool_decide_unpack _ _). vm_compute. exact I. }
  split; [done|].
  destruct (allowed_of_data (JObject sample_items)) as [m|] eqn:Hm;
    [|by vm_compute in Hm].
  exists m. split; [done|].
  destruct (load_dict_entries sample_items m Hkeys Hm) as [Hown Hnone].
  split.
  - destruct (Hown "U1" _ ltac:(left)) as (rooms & Hrooms & Hlook).
    rewrite Hlook. f_equal. vm_compute in Hrooms. injection Hrooms as <-.
    vm_compute. reflexivity.
  - apply Hnone. simpl. by intros [[=]|?%elem_of_nil]%elem_of_cons.
Defined.

Lemma allowed_of_other_data_witness :
  ((∀ recs, JStr "U2" ≠ JList recs) ∧ (∀ items, JStr "U2" ≠ JObject items)) ∧
  allowed_of_data (JStr "U2") = Return ∅ ∧
  attempts_of (detect_curious_users (H := reference_library) curious_log ∅) "U2"
  = 2.
Proof.
  assert (∀ recs, JStr "U2" ≠ JList recs) as Hl by done.
  assert (∀ items, JStr "U2" ≠ JObject items) as Ho by done.
  split; [done|].
  destruct (allowed_of_other_data (H := reference_library) (JStr "U2") Hl Ho)
    as [Hload Hall].
  split; [done|]. rewrite Hall. vm_compute. reflexivity.
Defined.

Lemma main_unparseable_timestamp_witness :
  ∃ ts, plain_isoparse ts = None
        ∧ main (H := reference_library) (H0 := sample_runtime)
            (sample_argv "broken.jsonl")
          = ([], Raise (AnalysisError (ParseError ts))).
Proof.
  destruct (main_unparseable_timestamp (H := reference_library)
              (H0 := sample_runtime) (sample_argv "broken.jsonl")
              {| columns := sample_columns; records := broken_log |}
              curious_allowed
              (mk_event "U1" "B" "2024-02-30T00:00:00" None))
    as [_ Hts].
  - simpl. lia.
  - vm_compute. reflexivity.
  - vm_compute. reflexivity.
  - right. left.
  - vm_compute. reflexivity.
  - apply Hts. do 3 right. left.
Defined.

Lemma main_missing_room_id_witness :
  ("room_id" ∉ columns (sample_frame noroom_rows)) ∧
  ("room_types.json"
     ∉ written (main (H := reference_library) (H0 := sample_runtime)
                  (sample_argv "noroom.jsonl")).1) ∧
  ("curious_users.json"
     ∉ written (main (H := reference_library) (H0 := sample_runtime)
                  (sample_argv "noroom.jsonl")).1).
Proof.
  assert ("room_id" ∉ columns (sample_frame noroom_rows)) as Hroom.
  { refine (bool_decide_unpack _ _). vm_compute. exact I. }
  destruct (main_missing_room_id (H := reference_library)
              (H0 := sample_runtime) (sample_argv "noroom.jsonl")
              (sample_frame noroom_rows) curious_allowed)
    as (_ & Hrooms & Hcurious & _).
  - simpl. lia.
  - vm_compute. reflexivity.
  - vm_compute. reflexivity.
  - exact Hroom.
  - split; [exact Hroom|]. split; [exact Hrooms|]. apply Hcurious.
    eexists. split; [left|]. reflexivity.
Defined.

Lemma main_empty_log_witness :
  main (H := reference_library) (H0 := sample_runtime)
    (sample_argv "empty.jsonl")
  = ([], Raise (KeyError "timestamp")).
Proof.
  apply (proj2 (main_empty_log (H := reference_library)
                  (H0 := sample_runtime) (sample_argv "empty.jsonl")
                  [nl; " " +:+ nl] ltac:(simpl; lia) eq_refl
                  ltac:(repeat constructor))
           curious_allowed).
  vm_compute. reflexivity.
Defined.
